(** * ugdoppler: projected telescope velocities and coordinate precession

    A shallow embedding of [ugdoppler/precess.py] and
    [ugdoppler/ugdoppler.py].  NumPy's float64 arithmetic is kept abstract
    behind the [Float64] interface, so that everything proved about the
    control flow, the shapes, the exceptions and the data flow holds for
    any arithmetic, IEEE doubles included.  Facts that need the values of
    the trigonometric functions are proved on the instance [npreal]: exact
    real arithmetic extended with NumPy's invalid-value result. *)

From Stdlib Require Import String Ascii List Bool Arith ZArith QArith Reals Lra Lia.
Import ListNotations.

Set Implicit Arguments.
Close Scope Q_scope.
Close Scope R_scope.
Open Scope nat_scope.

(** ** Exceptions and results *)

(** The Python exceptions the two functions can raise. *)
Inductive exc : Type := TypeError | ValueError | IndexError.

Inductive result (A : Type) : Type :=
| Ok (a : A)
| Raise (e : exc).
Arguments Ok {A} a.
Arguments Raise {A} e.

Definition bindR {A B} (m : result A) (k : A -> result B) : result B :=
  match m with
  | Ok a => k a
  | Raise e => Raise e
  end.

Notation "x <- m ;; k" := (bindR m (fun x => k))
  (at level 61, m at next level, right associativity).
Notation "' pat <- m ;; k" := (bindR m (fun x => match x with pat => k end))
  (at level 61, pat pattern, m at next level, right associativity).

Definition is_ok {A} (r : result A) : bool :=
  match r with Ok _ => true | Raise _ => false end.

(** ** The float64 interface *)

(** The operations on float64 values that the two source files use.
    [flit q] is the float written as the decimal literal [q];
    [fltb] is [<]; [ftruthy x] is Python's [bool(x)]. *)
Class Float64 (F : Type) : Type := {
  flit : Q -> F;
  fpi : F;
  fadd : F -> F -> F;
  fsub : F -> F -> F;
  fmul : F -> F -> F;
  fdiv : F -> F -> F;
  fneg : F -> F;
  fcos : F -> F;
  fsin : F -> F;
  farcsin : F -> F;
  farctan2 : F -> F -> F;
  fltb : F -> F -> bool;
  ftruthy : F -> bool
}.

(** A 3-vector and a 3x3 matrix (rows of [r[i, :]]). *)
Definition vec3 (F : Type) : Type := (F * F * F)%type.
Definition mat3 (F : Type) : Type := (vec3 F * vec3 F * vec3 F)%type.

(** A Python float ([Scalar]) or a one-dimensional NumPy array ([Arr]). *)
Inductive ndarray (F : Type) : Type :=
| Scalar (x : F)
| Arr (l : list F).
Arguments Scalar {F} x.
Arguments Arr {F} l.

Fixpoint map2 {A B C} (f : A -> B -> C) (l1 : list A) (l2 : list B) : list C :=
  match l1, l2 with
  | a :: l1', b :: l2' => f a b :: map2 f l1' l2'
  | _, _ => []
  end.

Fixpoint map3 {A B C D} (f : A -> B -> C -> D)
    (l1 : list A) (l2 : list B) (l3 : list C) : list D :=
  match l1, l2, l3 with
  | a :: l1', b :: l2', c :: l3' => f a b c :: map3 f l1' l2' l3'
  | _, _, _ => []
  end.

Section NumPy.
Context {F : Type} {FL : Float64 F}.

(** [len(v)]: a float has no length. *)
Definition np_len (v : ndarray F) : result nat :=
  match v with
  | Scalar _ => Raise TypeError
  | Arr l => Ok (length l)
  end.

(** The values held, whatever the shape. *)
Definition nd_values (v : ndarray F) : list F :=
  match v with
  | Scalar x => [x]
  | Arr l => l
  end.

(** A ufunc of one argument, or an operation with a float on one side. *)
Definition nd_map (f : F -> F) (v : ndarray F) : ndarray F :=
  match v with
  | Scalar x => Scalar (f x)
  | Arr l => Arr (map f l)
  end.

(** A binary operation under NumPy's broadcasting rule for shapes
    [()], [(n,)] and [(m,)]: equal lengths go elementwise, a length of
    one is stretched, anything else is a [ValueError]. *)
Definition broadcast (f : F -> F -> F) (a b : ndarray F) : result (ndarray F) :=
  match a, b with
  | Scalar x, Scalar y => Ok (Scalar (f x y))
  | Scalar x, Arr l => Ok (Arr (map (f x) l))
  | Arr l, Scalar y => Ok (Arr (map (fun x => f x y) l))
  | Arr l1, Arr l2 =>
      if length l1 =? length l2 then Ok (Arr (map2 f l1 l2))
      else match l1, l2 with
           | [x], _ => Ok (Arr (map (f x) l2))
           | _, [y] => Ok (Arr (map (fun x => f x y) l1))
           | _, _ => Raise ValueError
           end
  end.

(** [a[i, :] = v] for a row of length [n]: [v] is broadcast to [(n,)]. *)
Definition assign_row (n : nat) (v : ndarray F) : result (list F) :=
  match v with
  | Scalar x => Ok (repeat x n)
  | Arr l =>
      if length l =? n then Ok l
      else match l with
           | [x] => Ok (repeat x n)
           | _ => Raise ValueError
           end
  end.

(** [a[i] = v] for one element: a float, or an array of size one. *)
Definition assign_item (v : ndarray F) : result F :=
  match v with
  | Scalar x => Ok x
  | Arr [x] => Ok x
  | Arr _ => Raise ValueError
  end.

(** [float(v)]: only a float or an array of size one converts. *)
Definition py_float (v : ndarray F) : result F :=
  match v with
  | Scalar x => Ok x
  | Arr [x] => Ok x
  | Arr _ => Raise TypeError
  end.

(** [v[i]]: a float is not subscriptable. *)
Definition getitem (v : ndarray F) (i : nat) : result F :=
  match v with
  | Scalar _ => Raise TypeError
  | Arr l => match nth_error l i with
             | Some x => Ok x
             | None => Raise IndexError
             end
  end.

(** [np.sum] of a short vector: the elements are added left to right. *)
Definition np_sum (l : list F) : F :=
  match l with
  | [] => flit 0
  | x :: l' => fold_left fadd l' x
  end.

Definition vec3_mul (u v : vec3 F) : vec3 F :=
  let '(u0, u1, u2) := u in
  let '(v0, v1, v2) := v in
  (fmul u0 v0, fmul u1 v1, fmul u2 v2).

Definition vec3_list (u : vec3 F) : list F :=
  let '(u0, u1, u2) := u in [u0; u1; u2].

(** [np.sum(u * v)] for 3-vectors. *)
Definition dot3 (u v : vec3 F) : F := np_sum (vec3_list (vec3_mul u v)).

(** One row of [np.dot(r, x)] for [x] of shape [(3, npts)]. *)
Definition dot_row (ri : vec3 F) (x0 x1 x2 : list F) : list F :=
  map3 (fun a b c => dot3 ri (a, b, c)) x0 x1 x2.

(** [True] and [False] in arithmetic. *)
Definition of_bool (b : bool) : F := if b then flit 1 else flit 0.

(** ** precess.py *)

Section Precess.
(** [premat.py] is not among the sources: the precession matrix
    function is a parameter. *)
Variable premat : F -> F -> option bool -> mat3 F.

Definition deg_to_rad : F := fdiv fpi (flit 180).

(** Lines 78-100: the direction cosines of the input, rotated by the
    precession matrix: the rows of [x2]. *)
Definition rotated (ra dec : ndarray F) (equinox1 equinox2 : F)
    (FK4 : option bool) (radian : bool)
  : result (list F * list F * list F) :=
  (* try: npts = np.min([len(ra), len(dec)])  except: npts = 1 *)
  let npts := match np_len ra, np_len dec with
              | Ok n, Ok m => Nat.min n m
              | _, _ => 1%nat
              end in
  '(ra_rad, dec_rad) <-
     (if negb radian
      then Ok (nd_map (fun v => fmul v deg_to_rad) ra,
               nd_map (fun v => fmul v deg_to_rad) dec)
      else x <- py_float ra ;; y <- py_float dec ;; Ok (Scalar x, Scalar y)) ;;
  let a := nd_map fcos dec_rad in
  v0 <- broadcast fmul a (nd_map fcos ra_rad) ;;
  x0 <- assign_row npts v0 ;;
  v1 <- broadcast fmul a (nd_map fsin ra_rad) ;;
  x1 <- assign_row npts v1 ;;
  x2 <- assign_row npts (nd_map fsin dec_rad) ;;
  let '(r0, r1, r2) := premat equinox1 equinox2 FK4 in
  Ok (dot_row r0 x0 x1 x2, dot_row r1 x0 x1 x2, dot_row r2 x0 x1 x2).

(** [ra + (ra < 0.)*360.] *)
Definition wrap360 (v : F) : F :=
  fadd v (fmul (of_bool (fltb v (flit 0))) (flit 360)).

Definition precess (ra dec : ndarray F) (equinox1 equinox2 : F)
    (FK4 : option bool) (radian : bool)
  : result (ndarray F * ndarray F) :=
  '(x2_0, x2_1, x2_2) <- rotated ra dec equinox1 equinox2 FK4 radian ;;
  let ra_rad := map2 farctan2 x2_1 x2_0 in
  let dec_rad := map farcsin x2_2 in
  if negb radian then
    let ra := map (fun v => fdiv v deg_to_rad) ra_rad in
    let ra := map wrap360 ra in
    let dec := map (fun v => fdiv v deg_to_rad) dec_rad in
    Ok (Arr ra, Arr dec)
  else Ok (Arr ra_rad, Arr dec_rad).

(** The declination step as the specification words it ("clamp
    z-component to [-1, 1] before asin"), for comparison with
    [precess]. *)
Definition clamp (z : F) : F :=
  if fltb z (flit (-1)) then flit (-1)
  else if fltb (flit 1) z then flit 1 else z.

Definition precess_clamped (ra dec : ndarray F) (equinox1 equinox2 : F)
    (FK4 : option bool) (radian : bool)
  : result (ndarray F * ndarray F) :=
  '(x2_0, x2_1, x2_2) <- rotated ra dec equinox1 equinox2 FK4 radian ;;
  let ra_rad := map2 farctan2 x2_1 x2_0 in
  let dec_rad := map (fun z => farcsin (clamp z)) x2_2 in
  if negb radian then
    let ra := map (fun v => fdiv v deg_to_rad) ra_rad in
    let ra := map wrap360 ra in
    let dec := map (fun v => fdiv v deg_to_rad) dec_rad in
    Ok (Arr ra, Arr dec)
  else Ok (Arr ra_rad, Arr dec_rad).
(** What lines 84-110 do to one sample, in degrees: its direction
    cosines, their rotation, and the spherical coordinates recovered. *)
Definition dircos (ra_rad dec_rad : F) : vec3 F :=
  (fmul (fcos dec_rad) (fcos ra_rad),
   fmul (fcos dec_rad) (fsin ra_rad),
   fsin dec_rad).

Definition rotate (r : mat3 F) (x : vec3 F) : vec3 F :=
  let '(r0, r1, r2) := r in (dot3 r0 x, dot3 r1 x, dot3 r2 x).

Definition precess_point (r : mat3 F) (ra dec : F) : F * F :=
  let '(x2_0, x2_1, x2_2) :=
    rotate r (dircos (fmul ra deg_to_rad) (fmul dec deg_to_rad)) in
  (wrap360 (fdiv (farctan2 x2_1 x2_0) deg_to_rad),
   fdiv (farcsin x2_2) deg_to_rad).
End Precess.
End NumPy.

(** ** Effects of ugdoppler *)

(** The functions [ugdoppler] calls outside its own file. *)
Inductive callee : Type := Cbaryvel | Cprecess | CgetLST.

(** What a run of [ugdoppler] does besides computing: calls of its
    collaborators, [print], and [pdb.set_trace()]. *)
Inductive event : Type :=
| EvCall (c : callee)
| EvPrint (s : string)
| EvBreakpoint.

(** A computation that logs events and may raise: the events so far are
    kept when an exception ends the run. *)
Definition M (A : Type) : Type := (list event * result A)%type.

Definition retM {A} (a : A) : M A := ([], Ok a).

Definition bindM {A B} (m : M A) (k : A -> M B) : M B :=
  match m with
  | (t1, Ok a) => let '(t2, r) := k a in (t1 ++ t2, r)
  | (t1, Raise e) => (t1, Raise e)
  end.

Definition liftM {A} (r : result A) : M A := ([], r).

Definition emit (e : event) : M unit := ([e], Ok tt).

Notation "x <~ m ;; k" := (bindM m (fun x => k))
  (at level 61, m at next level, right associativity).
Notation "' pat <~ m ;; k" := (bindM m (fun x => match x with pat => k end))
  (at level 61, pat pattern, m at next level, right associativity).
Notation "m ;;; k" := (bindM m (fun _ => k))
  (at level 61, right associativity).

Definition trace {A} (m : M A) : list event := fst m.
Definition outcome {A} (m : M A) : result A := snd m.

Definition is_call (c : callee) (e : event) : bool :=
  match e, c with
  | EvCall Cbaryvel, Cbaryvel => true
  | EvCall Cprecess, Cprecess => true
  | EvCall CgetLST, CgetLST => true
  | _, _ => false
  end.

Definition is_print (e : event) : bool :=
  match e with EvPrint _ => true | _ => false end.

Definition is_breakpoint (e : event) : bool :=
  match e with EvBreakpoint => true | _ => false end.

(** Input, output or interaction with the user, as opposed to a call of a
    numeric collaborator. *)
Definition is_io (e : event) : bool := is_print e || is_breakpoint e.

(** The local variables of [ugdoppler] at its [return] statement. *)
Record frame (F : Type) : Type := {
  nin : nat;
  xxsource : list F * list F * list F;
  pvorbit_helio : list F;
  pvorbit_bary : list F;
  vvlsr : vec3 F;
  pvlsr : list F;
  obspos_deg : F * F;
  lst_mean : ndarray F;
  pvspin : ndarray F;
  vtotal : list (list F)
}.

Section Doppler.
Context {F : Type} {FL : Float64 F}.

(** [premat.py], [baryvel.py] and the [radiolab] module are not among
    the sources.  [baryvel jd epoch] returns the heliocentric and the
    barycentric velocity of the Earth as 3-vectors.

    Modelled from the spec: [getLST] is the sidereal-time collaborator,
    "consumed as a pure function (julianDay, observerLongitude) ->
    siderealTimeHours"; on an array of Julian days it is applied to each
    element. *)
Variable premat : F -> F -> option bool -> mat3 F.
Variable baryvel : F -> F -> vec3 F * vec3 F.
Variable getLST : F -> F -> F.

Definition dtor : F := fdiv fpi (flit 180).

(** [xxsource[:, NR]] *)
Definition column (xx : list F * list F * list F) (NR : nat) : vec3 F :=
  let '(x0, x1, x2) := xx in
  (nth NR x0 (flit 0), nth NR x1 (flit 0), nth NR x2 (flit 0)).

(** What one pass of the first loop stores at index [NR]. *)
Definition helio_at (jd : list F) (xx : list F * list F * list F) (NR : nat) : F :=
  dot3 (fst (baryvel (nth NR jd (flit 0)) (flit 2000))) (column xx NR).

Definition bary_at (jd : list F) (xx : list F * list F * list F) (NR : nat) : F :=
  dot3 (snd (baryvel (nth NR jd (flit 0)) (flit 2000))) (column xx NR).

(** The first loop over [range(nin)], lines 88-91. *)
Fixpoint orbit_loop (NRs : list nat) (julday : ndarray F)
    (xx : list F * list F * list F) : M (list F * list F) :=
  match NRs with
  | [] => retM ([], [])
  | NR :: rest =>
      jd <~ liftM (getitem julday NR) ;;
      emit (EvCall Cbaryvel) ;;;
      let '(vvorbit, velb) := baryvel jd (flit 2000) in
      let h := dot3 vvorbit (column xx NR) in
      let b := dot3 velb (column xx NR) in
      '(hs, bs) <~ orbit_loop rest julday xx ;;
      retM (h :: hs, b :: bs)
  end.

(** Lines 98-99: the apex of the solar motion, 18 h and 30 degrees, in
    radians: [2.*np.pi*18./24.] and [dtor*30.]. *)
Definition apex_ra : F := fdiv (fmul (fmul (flit 2) fpi) (flit 18)) (flit 24).
Definition apex_dec : F := fmul dtor (flit 30).

(** The velocity of the Sun with respect to the LSR, lines 98-107. *)
Definition lsr_apex : M (vec3 F) :=
  emit (EvCall Cprecess) ;;;
  '(ralsr_rad, declsr_rad) <~
     liftM (precess premat (Scalar apex_ra) (Scalar apex_dec)
              (flit 1900) (flit 2000) None true) ;;
  xxlsr0 <~ liftM (v <- broadcast fmul (nd_map fcos declsr_rad)
                          (nd_map fcos (nd_map (fadd fpi) ralsr_rad)) ;;
                   assign_item v) ;;
  xxlsr1 <~ liftM (v <- broadcast fmul (nd_map fcos declsr_rad)
                          (nd_map fsin ralsr_rad) ;;
                   assign_item v) ;;
  xxlsr2 <~ liftM (assign_item (nd_map fsin declsr_rad)) ;;
  retM (fmul (flit 20) xxlsr0, fmul (flit 20) xxlsr1, fmul (flit 20) xxlsr2).

(** Python's truth value of a keyword that defaults to [None]. *)
Definition truthy (x : option F) : bool :=
  match x with
  | None => false
  | Some v => ftruthy v
  end.

Definition northlat : F := flit 37.8732.
Definition westlong : F := flit 122.2573.
Definition notice : string := "I am defaulting to Campbell Hall coordinates".

(** The observatory position, lines 117-125. *)
Definition observer (nlat wlong : option F) : M (F * F) :=
  match nlat, wlong with
  | Some la, Some lo =>
      if ftruthy la && ftruthy lo then retM (la, lo)
      else emit (EvPrint notice) ;;; retM (northlat, westlong)
  | _, _ => emit (EvPrint notice) ;;; retM (northlat, westlong)
  end.

(** Lines 139-143: the four rows of [vtotal]. *)
Definition combine (nin : nat) (pvspin : ndarray F)
    (pvorbit_helio pvorbit_bary pvlsr : list F) : result (list (list F)) :=
  geo <- assign_row nin (nd_map fneg pvspin) ;;
  v1 <- broadcast fsub (nd_map fneg pvspin) (Arr pvorbit_helio) ;;
  helio <- assign_row nin v1 ;;
  v2 <- broadcast fsub (nd_map fneg pvspin) (Arr pvorbit_bary) ;;
  bary <- assign_row nin v2 ;;
  v3 <- broadcast fsub v2 (Arr pvlsr) ;;
  lsr <- assign_row nin v3 ;;
  Ok [geo; helio; bary; lsr].

Definition c_light : F := flit 299792.458.

(** The body of [ugdoppler] up to its [return]: the locals it ends with. *)
Definition ugdoppler_locals (ra dec julday : ndarray F)
    (nlat wlong : option F) (light : bool)
    (obspos_deg0 lst_mean0 : option (ndarray F)) : M (frame F) :=
  (* try: nin = len(ra)  except: nin = 1 *)
  let nin := match np_len ra with Ok n => n | Raise _ => 1%nat end in
  let rasource := nd_map (fun v => fmul (fmul v (flit 15)) dtor) ra in
  let decsource := nd_map (fun v => fmul v dtor) dec in
  v0 <~ liftM (broadcast fmul (nd_map fcos decsource) (nd_map fcos rasource)) ;;
  xx0 <~ liftM (assign_row nin v0) ;;
  v1 <~ liftM (broadcast fmul (nd_map fcos decsource) (nd_map fsin rasource)) ;;
  xx1 <~ liftM (assign_row nin v1) ;;
  xx2 <~ liftM (assign_row nin (nd_map fsin decsource)) ;;
  let xxsource := (xx0, xx1, xx2) in
  '(pvorbit_helio, pvorbit_bary) <~ orbit_loop (seq 0 nin) julday xxsource ;;
  vvlsr <~ lsr_apex ;;
  let pvlsr := map (fun NR => dot3 vvlsr (column xxsource NR)) (seq 0 nin) in
  obspos_deg <~ observer nlat wlong ;;
  let lat := fst obspos_deg in
  emit (EvCall CgetLST) ;;;
  let lst_mean := nd_map (fun jd => getLST jd (fneg (snd obspos_deg))) julday in
  d <~ liftM (broadcast fsub lst_mean ra) ;;
  t <~ liftM (broadcast fmul
                (Scalar (fmul (flit (-0.465)) (fcos (fmul dtor lat))))
                (nd_map fcos decsource)) ;;
  pvspin <~ liftM (broadcast fmul t
                     (nd_map fsin (nd_map (fun v => fmul (fmul v (flit 15)) dtor) d))) ;;
  vtotal <~ liftM (combine nin pvspin pvorbit_helio pvorbit_bary pvlsr) ;;
  let vtotal := if light then map (map (fun v => fdiv v c_light)) vtotal
                else vtotal in
  emit EvBreakpoint ;;;
  retM {| nin := nin; xxsource := xxsource;
          pvorbit_helio := pvorbit_helio; pvorbit_bary := pvorbit_bary;
          vvlsr := vvlsr; pvlsr := pvlsr;
          obspos_deg := obspos_deg; lst_mean := lst_mean;
          pvspin := pvspin; vtotal := vtotal |}.

(** [ugdoppler]: what the caller receives is [vtotal] alone. *)
Definition ugdoppler (ra dec julday : ndarray F)
    (nlat wlong : option F) (light : bool)
    (obspos_deg0 lst_mean0 : option (ndarray F)) : M (list (list F)) :=
  fr <~ ugdoppler_locals ra dec julday nlat wlong light obspos_deg0 lst_mean0 ;;
  retM (vtotal fr).
(** What lines 73-79 and 88-143 compute for the sample at one index, given
    the velocity [vv] of the Sun (lines 98-107) and the observatory [pos]
    (lines 117-124): the four entries of [vtotal[:, NR]], before line 145. *)
Definition sample_velocities (vv : vec3 F) (pos : F * F) (ra dec jd : F)
  : list F :=
  let rasource := fmul (fmul ra (flit 15)) dtor in
  let decsource := fmul dec dtor in
  let xx := (fmul (fcos decsource) (fcos rasource),
             fmul (fcos decsource) (fsin rasource),
             fsin decsource) in
  let pvorbit_helio := dot3 (fst (baryvel jd (flit 2000))) xx in
  let pvorbit_bary := dot3 (snd (baryvel jd (flit 2000))) xx in
  let pvlsr := dot3 vv xx in
  let lst_mean := getLST jd (fneg (snd pos)) in
  let pvspin :=
    fmul (fmul (fmul (flit (-0.465)) (fcos (fmul dtor (fst pos))))
            (fcos decsource))
         (fsin (fmul (fmul (fsub lst_mean ra) (flit 15)) dtor)) in
  [fneg pvspin;
   fsub (fneg pvspin) pvorbit_helio;
   fsub (fneg pvspin) pvorbit_bary;
   fsub (fsub (fneg pvspin) pvorbit_bary) pvlsr].
End Doppler.

(** ** Exact real arithmetic with NumPy's invalid value *)

(** Float64 idealised: every finite value is a real number and the
    operations are exact; [NaN] is what NumPy returns for an invalid
    operation.  Infinities and rounding are not represented. *)
Inductive npreal : Type :=
| NaN
| Fin (r : R).

Definition lift1 (f : R -> R) (x : npreal) : npreal :=
  match x with
  | Fin a => Fin (f a)
  | NaN => NaN
  end.

Definition lift2 (f : R -> R -> R) (x y : npreal) : npreal :=
  match x, y with
  | Fin a, Fin b => Fin (f a b)
  | _, _ => NaN
  end.

(** The two-argument arctangent, with values in (-PI, PI]. *)
Definition atan2 (y x : R) : R :=
  if Rlt_dec 0 x then atan (y / x)
  else if Rlt_dec x 0 then
         (if Rle_dec 0 y then atan (y / x) + PI else atan (y / x) - PI)
  else if Rlt_dec 0 y then PI / 2
  else if Rlt_dec y 0 then - (PI / 2)
  else 0.

(** [np.arcsin]: invalid outside [-1, 1]. *)
Definition np_arcsin (x : npreal) : npreal :=
  match x with
  | Fin a => if Rle_dec (-1) a then if Rle_dec a 1 then Fin (asin a) else NaN
             else NaN
  | NaN => NaN
  end.

(** Division: the only divisors in the two files are the nonzero
    constants [pi/180.] and [2.99792458e5]; a zero divisor is given the
    invalid value here. *)
Definition np_div (x y : npreal) : npreal :=
  match x, y with
  | Fin a, Fin b => if Req_dec_T b 0 then NaN else Fin (a / b)
  | _, _ => NaN
  end.

Definition np_ltb (x y : npreal) : bool :=
  match x, y with
  | Fin a, Fin b => if Rlt_dec a b then true else false
  | _, _ => false
  end.

Definition np_truthy (x : npreal) : bool :=
  match x with
  | Fin a => if Req_dec_T a 0 then false else true
  | NaN => true
  end.

#[export] Instance npreal_float64 : Float64 npreal := {
  flit q := Fin (Q2R q);
  fpi := Fin PI;
  fadd := lift2 Rplus;
  fsub := lift2 Rminus;
  fmul := lift2 Rmult;
  fdiv := np_div;
  fneg := lift1 Ropp;
  fcos := lift1 cos;
  fsin := lift1 sin;
  farcsin := np_arcsin;
  farctan2 y x := lift2 atan2 y x;
  fltb := np_ltb;
  ftruthy := np_truthy
}.

(** ** Collaborators for closed examples *)

Definition identity3 : mat3 npreal :=
  ((Fin 1, Fin 0, Fin 0), (Fin 0, Fin 1, Fin 0), (Fin 0, Fin 0, Fin 1)).

(** Modelled from the spec: [premat.py] is missing; section 4.1 fixes its
    value at equal epochs, "if epoch1 == epoch2, result must be the
    identity matrix".  Where the epochs differ the examples below depend
    on the shape of the matrix only, and the identity stands in. *)
Definition premat_identity (equinox1 equinox2 : npreal) (fk4 : option bool)
  : mat3 npreal := identity3.

(** Modelled from the spec: [premat.py] is missing; section 4.1 asks for
    the identity at equal epochs "within floating tolerance" only.  This
    matrix is the identity but for its last entry, one unit in the last
    place of a double above 1. *)
Definition premat_one_ulp (equinox1 equinox2 : npreal) (fk4 : option bool)
  : mat3 npreal :=
  ((Fin 1, Fin 0, Fin 0), (Fin 0, Fin 1, Fin 0),
   (Fin 0, Fin 0, Fin (1 + / 2 ^ 52))).

(** Stand-ins for [baryvel] and [getLST], both missing: an Earth at rest
    and a sidereal time of zero hours.  The examples that use them depend
    on shapes, exceptions and events only. *)
Definition baryvel_rest (jd epoch : npreal) : vec3 npreal * vec3 npreal :=
  ((Fin 0, Fin 0, Fin 0), (Fin 0, Fin 0, Fin 0)).

Definition getLST_zero (jd lon : npreal) : npreal := Fin 0.

(** Which lengths of RA, Dec and Julian day [ugdoppler] accepts. *)
Definition shapes_accepted (n m k : nat) : bool :=
  ((m =? n) || (m =? 1)) && ((k =? n) || ((n =? 0) && (k =? 1))).

(** Which pairs of lengths broadcast, and to what length. *)
Definition bshape (n1 n2 : nat) : option nat :=
  if n1 =? n2 then Some n1
  else if n1 =? 1 then Some n2
  else if n2 =? 1 then Some n1
  else None.

(** [vtotal/(2.99792458e5)] when [light] is set. *)
Definition in_unit {F} {FL : Float64 F} (light : bool) (rows : list (list F))
  : list (list F) :=
  if light then map (map (fun v => fdiv v (flit 299792.458))) rows else rows.

(** * Properties *)

(** ** Lists and shapes *)

Lemma map2_length {A B C} (f : A -> B -> C) (l1 : list A) (l2 : list B) :
  length l1 = length l2 -> length (map2 f l1 l2) = length l1.
Proof.
  revert l2; induction l1 as [|a l1 IH]; intros [|b l2] E; simpl in *;
    try discriminate; auto.
Qed.

Lemma map3_length {A B C D} (f : A -> B -> C -> D) l1 l2 l3 :
  length l2 = length l1 -> length l3 = length l1 ->
  length (map3 f l1 l2 l3) = length l1.
Proof.
  revert l2 l3; induction l1 as [|a l1 IH]; intros [|b l2] [|c l3] E2 E3;
    simpl in *; try discriminate; auto.
Qed.

Lemma length_one {A} (l : list A) : length l = 1%nat -> exists x, l = [x].
Proof.
  destruct l as [|x [|y l]]; simpl; try discriminate; eauto.
Qed.

Section ShapeLemmas.
Context {F : Type} {FL : Float64 F}.

Lemma broadcast_same_length (f : F -> F -> F) (l1 l2 : list F) :
  length l1 = length l2 ->
  broadcast f (Arr l1) (Arr l2) = Ok (Arr (map2 f l1 l2)).
Proof.
  intros E; simpl. now rewrite E, Nat.eqb_refl.
Qed.

Lemma assign_row_fit (n : nat) (l : list F) :
  length l = n -> assign_row n (Arr l) = Ok l.
Proof.
  intros E; simpl. now rewrite E, Nat.eqb_refl.
Qed.

(** The shape of a broadcast result depends on the shapes alone. *)
Lemma broadcast_shape (f : F -> F -> F) (l1 l2 : list F) :
  match bshape (length l1) (length l2) with
  | Some n => exists l, broadcast f (Arr l1) (Arr l2) = Ok (Arr l) /\ length l = n
  | None => broadcast f (Arr l1) (Arr l2) = Raise ValueError
  end.
Proof.
  unfold bshape, broadcast.
  destruct (Nat.eqb_spec (length l1) (length l2)) as [E|NE].
  - eexists; split; [reflexivity|]. now apply map2_length.
  - destruct (Nat.eqb_spec (length l1) 1) as [E1|NE1].
    + destruct (length_one l1 E1) as [x ->].
      eexists; split; [reflexivity|]. now rewrite length_map.
    + destruct (Nat.eqb_spec (length l2) 1) as [E2|NE2].
      * destruct (length_one l2 E2) as [y ->].
        destruct l1 as [|a [|b l1]]; simpl in *; try congruence;
          (eexists; split; [reflexivity|]); simpl; now rewrite ?length_map.
      * destruct l1 as [|a [|b l1]]; simpl in *; try congruence;
          destruct l2 as [|c [|d l2]]; simpl in *; congruence.
Qed.

Lemma assign_row_shape (n : nat) (l : list F) :
  if (length l =? n) || (length l =? 1)
  then exists l', assign_row n (Arr l) = Ok l' /\ length l' = n
  else assign_row n (Arr l) = Raise ValueError.
Proof.
  unfold assign_row.
  destruct (Nat.eqb_spec (length l) n) as [E|NE]; simpl.
  - eauto.
  - destruct (Nat.eqb_spec (length l) 1) as [E1|NE1].
    + destruct (length_one l E1) as [x ->]. eexists; split; [reflexivity|].
      apply repeat_length.
    + destruct l as [|a [|b l]]; simpl in *; congruence.
Qed.

Lemma broadcast_Arr_inv (f : F -> F -> F) (l1 l2 : list F) (v : ndarray F) :
  broadcast f (Arr l1) (Arr l2) = Ok v ->
  exists l, v = Arr l /\ bshape (length l1) (length l2) = Some (length l).
Proof.
  intros E. pose proof (broadcast_shape f l1 l2) as H.
  destruct (bshape (length l1) (length l2)) as [n|].
  - destruct H as (l & El & <-). exists l. split; congruence.
  - congruence.
Qed.

Lemma assign_row_inv (n : nat) (l l' : list F) :
  assign_row n (Arr l) = Ok l' ->
  (length l = n \/ length l = 1) /\ length l' = n.
Proof.
  intros E. pose proof (assign_row_shape n l) as H.
  destruct ((length l =? n) || (length l =? 1)) eqn:B.
  - destruct H as (l0 & El & Hl). apply orb_true_iff in B.
    rewrite !Nat.eqb_eq in B. split; [exact B|congruence].
  - congruence.
Qed.

Lemma assign_row_length (n : nat) (v : ndarray F) (l' : list F) :
  assign_row n v = Ok l' -> length l' = n.
Proof.
  destruct v as [x|l]; intros E.
  - simpl in E. injection E as <-. apply repeat_length.
  - now apply assign_row_inv in E.
Qed.

Lemma broadcast_raise (f : F -> F -> F) (a b : ndarray F) (e : exc) :
  broadcast f a b = Raise e -> e = ValueError.
Proof.
  destruct a as [x|l1], b as [y|l2]; simpl; try discriminate.
  destruct (length l1 =? length l2); [discriminate|].
  destruct l1 as [|a [|b l1]], l2 as [|c [|d l2]]; simpl; congruence.
Qed.

Lemma assign_row_raise (n : nat) (v : ndarray F) (e : exc) :
  assign_row n v = Raise e -> e = ValueError.
Proof.
  destruct v as [x|l]; simpl; [discriminate|].
  destruct (length l =? n); [discriminate|].
  destruct l as [|a [|b l]]; simpl; congruence.
Qed.

Lemma combine_raise (n : nat) (pv : ndarray F) (helio bary lsr : list F)
    (e : exc) :
  combine n pv helio bary lsr = Raise e -> e = ValueError.
Proof.
  unfold combine.
  repeat match goal with
         | |- bindR ?r _ = _ -> _ =>
             let E := fresh "E" in
             destruct r eqn:E; cbn [bindR];
               [|intros [= <-];
                 first [now apply broadcast_raise in E
                       |now apply assign_row_raise in E]]
         end.
  discriminate.
Qed.

Lemma bshape_same (n : nat) : bshape n n = Some n.
Proof. unfold bshape. now rewrite Nat.eqb_refl. Qed.

End ShapeLemmas.

(** ** The logging monad *)

Lemma bindM_ok {A B} (t : list event) (a : A) (k : A -> M B) :
  bindM (t, Ok a) k = (t ++ trace (k a), outcome (k a)).
Proof.
  unfold bindM, trace, outcome. now destruct (k a).
Qed.

Lemma bindM_raise {A B} (t : list event) (e : exc) (k : A -> M B) :
  bindM (t, Raise e) k = (t, Raise e).
Proof. reflexivity. Qed.

Lemma bindM_lift_ok {A B} (a : A) (k : A -> M B) :
  bindM (liftM (Ok a)) k = k a.
Proof.
  unfold liftM. rewrite bindM_ok. unfold trace, outcome. now destruct (k a).
Qed.

Lemma bindM_lift_raise {A B} (e : exc) (k : A -> M B) :
  bindM (liftM (Raise e)) k = ([], Raise e).
Proof. reflexivity. Qed.

Lemma bindM_emit {B} (e : event) (k : unit -> M B) :
  bindM (emit e) k = (e :: trace (k tt), outcome (k tt)).
Proof. unfold emit. now rewrite bindM_ok. Qed.

Lemma bindM_inv {A B} (m : M A) (k : A -> M B) (t : list event) (b : B) :
  bindM m k = (t, Ok b) ->
  exists t1 a t2, m = (t1, Ok a) /\ k a = (t2, Ok b) /\ t = t1 ++ t2.
Proof.
  destruct m as [t1 [a|e]]; [|discriminate].
  rewrite bindM_ok. unfold trace, outcome.
  destruct (k a) as [t2 r] eqn:E; simpl. intros [= <- ->]. eauto 6.
Qed.

Lemma liftM_inv {A} (r : result A) (t : list event) (a : A) :
  liftM r = (t, Ok a) -> t = [] /\ r = Ok a.
Proof. unfold liftM. now intros [= <- ->]. Qed.

Lemma emit_inv (e : event) (t : list event) (u : unit) :
  emit e = (t, Ok u) -> t = [e].
Proof. unfold emit. now intros [= <-]. Qed.

Lemma retM_inv {A} (a b : A) (t : list event) :
  retM a = (t, Ok b) -> t = [] /\ a = b.
Proof. unfold retM. now intros [= <- ->]. Qed.

(** One step through a stage that cannot log: it has succeeded. *)
Ltac lift_step H :=
  match type of H with
  | bindM (liftM ?r) _ = _ =>
      let E := fresh "E" in
      destruct r eqn:E;
        [rewrite bindM_lift_ok in H
        |rewrite bindM_lift_raise in H; discriminate H]
  end.

(** One step through a stage that cannot log, when the run fails: either
    this stage has raised, with a [ValueError], or a later one. *)
Ltac raise_step :=
  match goal with
  | |- outcome (bindM (liftM ?r) _) = Raise _ -> _ =>
      let E := fresh "E" in
      destruct r eqn:E;
        [rewrite bindM_lift_ok
        |rewrite bindM_lift_raise; intros [= <-]; left;
         first [now apply broadcast_raise in E
               |now apply assign_row_raise in E
               |now apply combine_raise in E]]
  end.

Section DopplerFacts.
Context {F : Type} {FL : Float64 F}.
Variable premat : F -> F -> option bool -> mat3 F.
Variable baryvel : F -> F -> vec3 F * vec3 F.
Variable getLST : F -> F -> F.

(** *** precess on a pair of floats, in radians *)

Lemma precess_scalar_radian (a b e1 e2 : F) (fk4 : option bool) :
  exists r d, precess premat (Scalar a) (Scalar b) e1 e2 fk4 true
              = Ok (Arr [r], Arr [d]).
Proof.
  unfold precess, rotated; simpl.
  destruct (premat e1 e2 fk4) as [[r0 r1] r2]; simpl.
  eauto.
Qed.

Lemma lsr_apex_eq (r d : F) :
  precess premat (Scalar apex_ra) (Scalar apex_dec) (flit 1900) (flit 2000)
    None true = Ok (Arr [r], Arr [d]) ->
  lsr_apex premat =
    ([EvCall Cprecess],
     Ok (fmul (flit 20) (fmul (fcos d) (fcos (fadd fpi r))),
         fmul (flit 20) (fmul (fcos d) (fsin r)),
         fmul (flit 20) (fsin d))).
Proof.
  intros E. unfold lsr_apex. rewrite E. reflexivity.
Qed.

(** *** The loop over the samples *)

Lemma orbit_loop_ok (jd : list F) (xx : list F * list F * list F) (NRs : list nat) :
  (forall NR, In NR NRs -> NR < length jd) ->
  orbit_loop baryvel NRs (Arr jd) xx =
    (repeat (EvCall Cbaryvel) (length NRs),
     Ok (map (helio_at baryvel jd xx) NRs, map (bary_at baryvel jd xx) NRs)).
Proof.
  induction NRs as [|NR rest IH]; intros Hin; [reflexivity|].
  assert (Hlt : NR < length jd) by (apply Hin; now left).
  destruct (nth_error jd NR) as [x|] eqn:Ex;
    [|apply nth_error_None in Ex; lia].
  cbn [orbit_loop getitem]. rewrite Ex, bindM_lift_ok, bindM_emit.
  cbn [map length repeat]. unfold helio_at at 1, bary_at at 1.
  rewrite (nth_error_nth jd NR (flit 0) Ex).
  destruct (baryvel x (flit 2000)) as [vvorbit velb].
  rewrite IH by (intros n Hn; apply Hin; now right).
  cbn [bindM retM trace outcome fst snd app]. now rewrite app_nil_r.
Qed.

Lemma orbit_loop_short (jd : list F) (xx : list F * list F * list F)
    (start n : nat) :
  start <= length jd -> length jd < start + n ->
  outcome (orbit_loop baryvel (seq start n) (Arr jd) xx) = Raise IndexError.
Proof.
  revert start; induction n as [|n IH]; intros start Hle Hlt; [lia|].
  cbn [orbit_loop seq getitem].
  destruct (nth_error jd start) as [x|] eqn:Ex; [|reflexivity].
  rewrite bindM_lift_ok, bindM_emit.
  destruct (baryvel x (flit 2000)) as [vvorbit velb].
  assert (Hs : start < length jd) by (apply nth_error_Some; congruence).
  specialize (IH (S start)).
  destruct (orbit_loop baryvel (seq (S start) n) (Arr jd) xx) as [t [[hs bs]|e]];
    unfold outcome in *; simpl in *.
  - assert (Ok (hs, bs) = Raise IndexError) by (apply IH; lia). discriminate.
  - apply IH; lia.
Qed.

Lemma lsr_apex_run :
  exists r d,
    precess premat (Scalar apex_ra) (Scalar apex_dec) (flit 1900) (flit 2000)
      None true = Ok (Arr [r], Arr [d]) /\
    lsr_apex premat =
      ([EvCall Cprecess],
       Ok (fmul (flit 20) (fmul (fcos d) (fcos (fadd fpi r))),
           fmul (flit 20) (fmul (fcos d) (fsin r)),
           fmul (flit 20) (fsin d))).
Proof.
  destruct (precess_scalar_radian apex_ra apex_dec (flit 1900) (flit 2000) None)
    as (r & d & E).
  exists r, d. split; [exact E|]. now apply lsr_apex_eq.
Qed.

Lemma observer_run (nlat wlong : option F) :
  observer nlat wlong =
    if truthy nlat && truthy wlong
    then ([], Ok (match nlat with Some la => la | None => northlat end,
                  match wlong with Some lo => lo | None => westlong end))
    else ([EvPrint notice], Ok (northlat, westlong)).
Proof.
  unfold observer, truthy.
  destruct nlat as [la|], wlong as [lo|]; simpl; try reflexivity.
  now rewrite andb_false_r.
Qed.

(** The four rows on a batch: every operand has the length of the batch. *)
Lemma combine_batch (p helio bary lsr : list F) :
  length helio = length p -> length bary = length p -> length lsr = length p ->
  combine (length p) (Arr p) helio bary lsr =
    Ok [map fneg p;
        map2 fsub (map fneg p) helio;
        map2 fsub (map fneg p) bary;
        map2 fsub (map2 fsub (map fneg p) bary) lsr].
Proof.
  intros Hh Hb Hl. unfold combine. cbn [nd_map].
  rewrite assign_row_fit by apply length_map. cbn [bindR].
  rewrite broadcast_same_length by (rewrite length_map; congruence). cbn [bindR].
  rewrite assign_row_fit by (rewrite map2_length; rewrite length_map; congruence).
  cbn [bindR].
  rewrite broadcast_same_length by (rewrite length_map; congruence). cbn [bindR].
  rewrite assign_row_fit by (rewrite map2_length; rewrite length_map; congruence).
  cbn [bindR].
  rewrite broadcast_same_length
    by (rewrite map2_length; rewrite length_map; congruence).
  cbn [bindR].
  rewrite assign_row_fit
    by (rewrite map2_length; rewrite map2_length; rewrite length_map; congruence).
  reflexivity.
Qed.

(** Every stage a run has gone through when [ugdoppler] reaches its
    [return]. *)
Lemma ugdoppler_locals_inv (ra dec julday : ndarray F) (nlat wlong : option F)
    (light : bool) (o l : option (ndarray F)) (t : list event) (fr : frame F) :
  ugdoppler_locals premat baryvel getLST ra dec julday nlat wlong light o l
    = (t, Ok fr) ->
  let n := match np_len ra with Ok n => n | Raise _ => 1 end in
  let rasource := nd_map (fun v => fmul (fmul v (flit 15)) dtor) ra in
  let decsource := nd_map (fun v => fmul v dtor) dec in
  exists v0 v1 xx0 xx1 xx2 th helio bary vv tobs pos d tm pv rows,
    broadcast fmul (nd_map fcos decsource) (nd_map fcos rasource) = Ok v0 /\
    assign_row n v0 = Ok xx0 /\
    broadcast fmul (nd_map fcos decsource) (nd_map fsin rasource) = Ok v1 /\
    assign_row n v1 = Ok xx1 /\
    assign_row n (nd_map fsin decsource) = Ok xx2 /\
    orbit_loop baryvel (seq 0 n) julday (xx0, xx1, xx2) = (th, Ok (helio, bary)) /\
    lsr_apex premat = ([EvCall Cprecess], Ok vv) /\
    observer nlat wlong = (tobs, Ok pos) /\
    broadcast fsub (nd_map (fun jd => getLST jd (fneg (snd pos))) julday) ra
      = Ok d /\
    broadcast fmul (Scalar (fmul (flit (-0.465)) (fcos (fmul dtor (fst pos)))))
      (nd_map fcos decsource) = Ok tm /\
    broadcast fmul tm
      (nd_map fsin (nd_map (fun v => fmul (fmul v (flit 15)) dtor) d)) = Ok pv /\
    combine n pv helio bary
      (map (fun NR => dot3 vv (column (xx0, xx1, xx2) NR)) (seq 0 n)) = Ok rows /\
    t = th ++ [EvCall Cprecess] ++ tobs ++ [EvCall CgetLST; EvBreakpoint] /\
    fr = {| nin := n; xxsource := (xx0, xx1, xx2);
            pvorbit_helio := helio; pvorbit_bary := bary;
            vvlsr := vv;
            pvlsr := map (fun NR => dot3 vv (column (xx0, xx1, xx2) NR)) (seq 0 n);
            obspos_deg := pos;
            lst_mean := nd_map (fun jd => getLST jd (fneg (snd pos))) julday;
            pvspin := pv;
            vtotal := in_unit light rows |}.
Proof.
  intros H n rasource decsource. unfold ugdoppler_locals in H.
  fold n rasource decsource in H.
  repeat lift_step H.
  apply bindM_inv in H. destruct H as (th & [helio bary] & t2 & Eloop & H & ->).
  apply bindM_inv in H. destruct H as (tl & vv & t3 & Elsr & H & ->).
  destruct lsr_apex_run as (r & d & _ & Erun).
  assert (tl = [EvCall Cprecess]) as -> by congruence.
  clear r d Erun.
  apply bindM_inv in H. destruct H as (tobs & pos & t4 & Eobs & H & ->).
  apply bindM_inv in H. destruct H as (te & u & t5 & Ee & H & ->).
  apply emit_inv in Ee; subst te.
  repeat lift_step H.
  apply bindM_inv in H. destruct H as (te & u' & t6 & Ee & H & ->).
  apply emit_inv in Ee; subst te.
  apply retM_inv in H. destruct H as [-> <-].
  do 15 eexists. repeat (split; [first [reflexivity | eassumption]|]).
  reflexivity.
Qed.

(** Conversely: a run whose stages all succeed reaches the [return]. *)
Lemma ugdoppler_locals_run (ra dec julday : ndarray F) (nlat wlong : option F)
    (light : bool) (o l : option (ndarray F))
    (v0 v1 : ndarray F) (xx0 xx1 xx2 : list F) (th : list event)
    (helio bary : list F) (vv : vec3 F) (tobs : list event) (pos : F * F)
    (d tm pv : ndarray F) (rows : list (list F)) :
  let n := match np_len ra with Ok n => n | Raise _ => 1 end in
  let rasource := nd_map (fun v => fmul (fmul v (flit 15)) dtor) ra in
  let decsource := nd_map (fun v => fmul v dtor) dec in
  broadcast fmul (nd_map fcos decsource) (nd_map fcos rasource) = Ok v0 ->
  assign_row n v0 = Ok xx0 ->
  broadcast fmul (nd_map fcos decsource) (nd_map fsin rasource) = Ok v1 ->
  assign_row n v1 = Ok xx1 ->
  assign_row n (nd_map fsin decsource) = Ok xx2 ->
  orbit_loop baryvel (seq 0 n) julday (xx0, xx1, xx2) = (th, Ok (helio, bary)) ->
  lsr_apex premat = ([EvCall Cprecess], Ok vv) ->
  observer nlat wlong = (tobs, Ok pos) ->
  broadcast fsub (nd_map (fun jd => getLST jd (fneg (snd pos))) julday) ra
    = Ok d ->
  broadcast fmul (Scalar (fmul (flit (-0.465)) (fcos (fmul dtor (fst pos)))))
    (nd_map fcos decsource) = Ok tm ->
  broadcast fmul tm
    (nd_map fsin (nd_map (fun v => fmul (fmul v (flit 15)) dtor) d)) = Ok pv ->
  combine n pv helio bary
    (map (fun NR => dot3 vv (column (xx0, xx1, xx2) NR)) (seq 0 n)) = Ok rows ->
  ugdoppler_locals premat baryvel getLST ra dec julday nlat wlong light o l =
    (th ++ [EvCall Cprecess] ++ tobs ++ [EvCall CgetLST; EvBreakpoint],
     Ok {| nin := n; xxsource := (xx0, xx1, xx2);
           pvorbit_helio := helio; pvorbit_bary := bary;
           vvlsr := vv;
           pvlsr := map (fun NR => dot3 vv (column (xx0, xx1, xx2) NR)) (seq 0 n);
           obspos_deg := pos;
           lst_mean := nd_map (fun jd => getLST jd (fneg (snd pos))) julday;
           pvspin := pv;
           vtotal := in_unit light rows |}).
Proof.
  intros n rasource decsource E0 E1 E2 E3 E4 Eloop Elsr Eobs E5 E6 E7 E8.
  unfold ugdoppler_locals. fold n rasource decsource.
  rewrite E0, bindM_lift_ok, E1, bindM_lift_ok, E2, bindM_lift_ok,
    E3, bindM_lift_ok, E4, bindM_lift_ok.
  rewrite Eloop, bindM_ok. cbn beta iota.
  rewrite Elsr, bindM_ok, Eobs, bindM_ok, bindM_emit.
  rewrite E5, bindM_lift_ok, E6, bindM_lift_ok, E7, bindM_lift_ok,
    E8, bindM_lift_ok, bindM_emit.
  reflexivity.
Qed.

Lemma bshape_stretch (m n : nat) :
  m = n \/ m = 1 -> bshape m n = Some n.
Proof.
  unfold bshape. intros [->| ->].
  - now rewrite Nat.eqb_refl.
  - destruct (Nat.eqb_spec 1 n) as [<-|]; reflexivity.
Qed.

Lemma shapes_accepted_spec (n m k : nat) :
  shapes_accepted n m k = true <->
  (m = n \/ m = 1) /\ (k = n \/ (n = 0 /\ k = 1)).
Proof.
  unfold shapes_accepted.
  rewrite andb_true_iff, !orb_true_iff, andb_true_iff, !Nat.eqb_eq. tauto.
Qed.

(** A batch of accepted shape runs to the end, and its rows are the four
    combinations of the projected velocities. *)
Lemma ugdoppler_locals_batch (ra dec jd : list F) (nlat wlong : option F)
    (light : bool) (o l : option (ndarray F)) :
  shapes_accepted (length ra) (length dec) (length jd) = true ->
  exists t fr p,
    ugdoppler_locals premat baryvel getLST (Arr ra) (Arr dec) (Arr jd)
      nlat wlong light o l = (t, Ok fr) /\
    nin fr = length ra /\
    pvspin fr = Arr p /\
    length p = length ra /\
    length (pvorbit_helio fr) = length ra /\
    length (pvorbit_bary fr) = length ra /\
    length (pvlsr fr) = length ra /\
    vtotal fr =
      in_unit light
        [map fneg p;
         map2 fsub (map fneg p) (pvorbit_helio fr);
         map2 fsub (map fneg p) (pvorbit_bary fr);
         map2 fsub (map2 fsub (map fneg p) (pvorbit_bary fr)) (pvlsr fr)].
Proof.
  intros Hs. apply shapes_accepted_spec in Hs. destruct Hs as [Hm Hk].
  set (n := length ra) in *.
  set (decsource := map (fun v => fmul v dtor) dec).
  set (rasource := map (fun v => fmul (fmul v (flit 15)) dtor) ra).
  (* the direction cosines of the sources *)
  pose proof (broadcast_shape fmul (map fcos decsource) (map fcos rasource)) as B0.
  pose proof (broadcast_shape fmul (map fcos decsource) (map fsin rasource)) as B1.
  unfold decsource, rasource in B0, B1. rewrite !length_map in B0, B1.
  fold n decsource rasource in B0, B1.
  rewrite (bshape_stretch Hm) in B0, B1.
  destruct B0 as (l0 & E0 & L0), B1 as (l1 & E1 & L1).
  pose proof (assign_row_shape n (map fsin decsource)) as B2.
  unfold decsource in B2. rewrite !length_map in B2. fold decsource in B2.
  replace ((length dec =? n) || (length dec =? 1)) with true in B2
    by (symmetry; rewrite orb_true_iff, !Nat.eqb_eq; exact Hm).
  destruct B2 as (l2 & E2 & L2).
  (* the loop *)
  assert (Eloop := orbit_loop_ok jd (l0, l1, l2) (seq 0 n)).
  rewrite length_seq in Eloop.
  specialize (Eloop ltac:(intros NR HNR; apply in_seq in HNR; lia)).
  destruct lsr_apex_run as (r & d & _ & Elsr).
  set (vv := (_, _, _)) in Elsr.
  (* the observatory and the spin *)
  assert (exists tobs pos, observer nlat wlong = (tobs, Ok pos))
    as (tobs & pos & Eobs)
    by (rewrite observer_run; destruct (truthy nlat && truthy wlong); eauto).
  pose proof (broadcast_shape fsub
                (map (fun x => getLST x (fneg (snd pos))) jd) ra) as B3.
  rewrite length_map in B3. fold n in B3.
  replace (bshape (length jd) n) with (Some n) in B3
    by (symmetry; unfold bshape;
        destruct Hk as [->|[-> ->]]; [now rewrite Nat.eqb_refl|reflexivity]).
  destruct B3 as (ld & E3 & L3).
  set (c := fmul (flit (-0.465)) (fcos (fmul dtor (fst pos)))).
  pose proof (broadcast_shape fmul (map (fmul c) (map fcos decsource))
                (map fsin (map (fun v => fmul (fmul v (flit 15)) dtor) ld))) as B4.
  unfold decsource in B4. rewrite !length_map in B4. fold decsource in B4.
  rewrite L3, (bshape_stretch Hm) in B4.
  destruct B4 as (p & E4 & L4).
  assert (Ec := combine_batch p
            (map (helio_at baryvel jd (l0, l1, l2)) (seq 0 n))
            (map (bary_at baryvel jd (l0, l1, l2)) (seq 0 n))
            (map (fun NR => dot3 vv (column (l0, l1, l2) NR)) (seq 0 n))).
  rewrite !length_map, length_seq, L4 in Ec.
  specialize (Ec eq_refl eq_refl eq_refl).
  eexists _, _, p. split.
  - eapply ugdoppler_locals_run; cbn [np_len nd_map];
      try solve [eassumption | apply assign_row_fit; assumption | reflexivity].
  - cbn [nin pvspin pvorbit_helio pvorbit_bary pvlsr vtotal np_len].
    rewrite !length_map, !length_seq. repeat split; auto.
Qed.

(** Only accepted shapes reach the [return]. *)
Lemma ugdoppler_locals_shapes (ra dec jd : list F) (nlat wlong : option F)
    (light : bool) (o l : option (ndarray F)) (t : list event) (fr : frame F) :
  ugdoppler_locals premat baryvel getLST (Arr ra) (Arr dec) (Arr jd)
    nlat wlong light o l = (t, Ok fr) ->
  shapes_accepted (length ra) (length dec) (length jd) = true.
Proof.
  intros H. apply ugdoppler_locals_inv in H. cbn [np_len nd_map] in H.
  destruct H as (v0 & v1 & xx0 & xx1 & xx2 & th & helio & bary & vv & tobs
                 & pos & d & tm & pv & rows & _ & _ & _ & _ & E2 & Eloop & _ & _
                 & E3 & E4 & E5 & E6 & _ & _).
  apply shapes_accepted_spec.
  apply assign_row_inv in E2. rewrite !length_map in E2. destruct E2 as [Hm _].
  assert (Hk : length ra <= length jd).
  { destruct (le_lt_dec (length ra) (length jd)) as [|Hlt]; [assumption|].
    pose proof (@orbit_loop_short jd (xx0, xx1, xx2) 0 (length ra)
                  (Nat.le_0_l _) Hlt) as Hr.
    rewrite Eloop in Hr. discriminate Hr. }
  apply broadcast_Arr_inv in E3. destruct E3 as (ld & -> & B3).
  rewrite length_map in B3.
  cbn [broadcast] in E4. injection E4 as <-. cbn [nd_map] in E5.
  apply broadcast_Arr_inv in E5. destruct E5 as (p & -> & B5).
  rewrite !length_map in B5.
  unfold combine in E6. cbn [nd_map] in E6.
  destruct (assign_row (length ra) (Arr (map fneg p))) as [geo|e] eqn:Eg;
    [|discriminate E6].
  apply assign_row_inv in Eg. rewrite length_map in Eg. destruct Eg as [Hp _].
  split; [exact Hm|].
  unfold bshape in B3, B5.
  repeat match goal with
         | H : context [?a =? ?b] |- _ => destruct (Nat.eqb_spec a b)
         end; try discriminate; injection B3 as B3; injection B5 as B5; lia.
Qed.

Lemma orbit_loop_raise (jd : list F) (xx : list F * list F * list F)
    (NRs : list nat) (e : exc) :
  outcome (orbit_loop baryvel NRs (Arr jd) xx) = Raise e -> e = IndexError.
Proof.
  induction NRs as [|NR rest IH]; [discriminate|].
  cbn [orbit_loop getitem].
  destruct (nth_error jd NR) as [x|]; [|now intros [= <-]].
  rewrite bindM_lift_ok, bindM_emit.
  destruct (baryvel x (flit 2000)) as [vvorbit velb].
  destruct (orbit_loop baryvel rest (Arr jd) xx) as [t [[hs bs]|e']];
    unfold outcome in *; simpl in *; [discriminate|exact IH].
Qed.

(** With arrays for inputs, a failing run ends in a NumPy [ValueError] or
    in the [IndexError] of [julday[NR]]. *)
Lemma ugdoppler_locals_raises (ra dec jd : list F) (nlat wlong : option F)
    (light : bool) (o l : option (ndarray F)) (e : exc) :
  outcome (ugdoppler_locals premat baryvel getLST (Arr ra) (Arr dec) (Arr jd)
             nlat wlong light o l) = Raise e ->
  e = ValueError \/ e = IndexError.
Proof.
  unfold ugdoppler_locals.
  repeat raise_step.
  destruct (orbit_loop _ _ _ _) as [th [[helio bary]|e']] eqn:Eloop.
  2:{ rewrite bindM_raise. intros [= <-]. right.
      eapply orbit_loop_raise. rewrite Eloop. reflexivity. }
  rewrite bindM_ok. cbn [outcome snd].
  destruct lsr_apex_run as (r & d & _ & ->).
  rewrite bindM_ok. cbn [outcome snd].
  rewrite observer_run.
  destruct (truthy nlat && truthy wlong);
    rewrite bindM_ok, bindM_emit; cbn [outcome snd];
    repeat raise_step;
    rewrite bindM_emit; discriminate.
Qed.

Lemma orbit_loop_trace (julday : ndarray F) (xx : list F * list F * list F)
    (NRs : list nat) (t : list event) (hb : list F * list F) :
  orbit_loop baryvel NRs julday xx = (t, Ok hb) ->
  t = repeat (EvCall Cbaryvel) (length NRs).
Proof.
  revert t hb; induction NRs as [|NR rest IH]; intros t hb H.
  - now apply retM_inv in H.
  - cbn [orbit_loop] in H. lift_step H.
    apply bindM_inv in H. destruct H as (te & u & t2 & Ee & H & ->).
    apply emit_inv in Ee; subst te.
    destruct (baryvel a (flit 2000)) as [vvorbit velb].
    apply bindM_inv in H. destruct H as (t3 & hb' & t4 & Erest & H & ->).
    destruct hb' as [hs bs]. apply retM_inv in H. destruct H as [-> _].
    rewrite (IH _ _ Erest). cbn [length repeat app]. now rewrite app_nil_r.
Qed.

(** What the caller receives, in terms of the locals. *)
Lemma ugdoppler_ok (ra dec julday : ndarray F) (nlat wlong : option F)
    (light : bool) (o l : option (ndarray F)) (t : list event) (fr : frame F) :
  ugdoppler_locals premat baryvel getLST ra dec julday nlat wlong light o l
    = (t, Ok fr) ->
  ugdoppler premat baryvel getLST ra dec julday nlat wlong light o l
    = (t, Ok (vtotal fr)).
Proof.
  intros E. unfold ugdoppler. rewrite E, bindM_ok.
  cbn [retM trace outcome fst snd]. now rewrite app_nil_r.
Qed.

Lemma ugdoppler_inv (ra dec julday : ndarray F) (nlat wlong : option F)
    (light : bool) (o l : option (ndarray F)) (t : list event)
    (rows : list (list F)) :
  ugdoppler premat baryvel getLST ra dec julday nlat wlong light o l
    = (t, Ok rows) ->
  exists fr,
    ugdoppler_locals premat baryvel getLST ra dec julday nlat wlong light o l
      = (t, Ok fr) /\ rows = vtotal fr.
Proof.
  unfold ugdoppler. intros H.
  apply bindM_inv in H. destruct H as (t1 & fr & t2 & E & H & ->).
  apply retM_inv in H. destruct H as [-> <-].
  exists fr. now rewrite app_nil_r.
Qed.

Lemma ugdoppler_outcome_raise (ra dec julday : ndarray F) (nlat wlong : option F)
    (light : bool) (o l : option (ndarray F)) (e : exc) :
  outcome (ugdoppler premat baryvel getLST ra dec julday nlat wlong light o l)
    = Raise e ->
  outcome (ugdoppler_locals premat baryvel getLST ra dec julday nlat wlong
             light o l) = Raise e.
Proof.
  unfold ugdoppler.
  destruct (ugdoppler_locals _ _ _ _ _ _ _ _ _ _ _) as [t [fr|e']].
  - rewrite bindM_ok. discriminate.
  - rewrite bindM_raise. unfold outcome; simpl. congruence.
Qed.

(** The keywords [obspos_deg] and [lst_mean] are rebound before they are
    read: what the caller passes for them changes nothing. *)
Lemma ugdoppler_keywords_unread (ra dec julday : ndarray F)
    (nlat wlong : option F) (light : bool) (o l o' l' : option (ndarray F)) :
  ugdoppler premat baryvel getLST ra dec julday nlat wlong light o l =
  ugdoppler premat baryvel getLST ra dec julday nlat wlong light o' l'.
Proof. reflexivity. Qed.

End DopplerFacts.

(** ** ugdoppler: the claims *)

Section DopplerClaims.
Context {F : Type} {FL : Float64 F}.
Variable premat : F -> F -> option bool -> mat3 F.
Variable baryvel : F -> F -> vec3 F * vec3 F.
Variable getLST : F -> F -> F.

(** C1.  On a batch of samples (RA, Dec and Julian day of one length)
    [ugdoppler] returns, and the rows of what it returns are, in this
    order, [-pvspin], [-pvspin - pvorbit_helio], [-pvspin - pvorbit_bary]
    and [-pvspin - pvorbit_bary - pvlsr], sample by sample: in km/s, or
    each divided by the speed of light when [light] is set. *)
Theorem ugdoppler_combines_rows (ra dec jd : list F) (nlat wlong : option F)
    (light : bool) (o l : option (ndarray F)) :
  length dec = length ra -> length jd = length ra ->
  exists t fr p,
    ugdoppler_locals premat baryvel getLST (Arr ra) (Arr dec) (Arr jd)
      nlat wlong light o l = (t, Ok fr) /\
    pvspin fr = Arr p /\
    length p = length ra /\
    length (pvorbit_helio fr) = length ra /\
    length (pvorbit_bary fr) = length ra /\
    length (pvlsr fr) = length ra /\
    ugdoppler premat baryvel getLST (Arr ra) (Arr dec) (Arr jd)
      nlat wlong light o l =
      (t, Ok (in_unit light
                [map fneg p;
                 map2 fsub (map fneg p) (pvorbit_helio fr);
                 map2 fsub (map fneg p) (pvorbit_bary fr);
                 map2 fsub (map2 fsub (map fneg p) (pvorbit_bary fr))
                   (pvlsr fr)])).
Proof.
  intros Hd Hj.
  destruct (ugdoppler_locals_batch premat baryvel getLST ra dec jd
              nlat wlong light o l)
    as (t & fr & p & E & _ & Ep & Lp & Lh & Lb & Ll & Ev).
  { apply shapes_accepted_spec. split; left; assumption. }
  exists t, fr, p. repeat (split; [assumption|]).
  rewrite <- Ev. now apply ugdoppler_ok.
Qed.

(** C2.  In a run that reaches its [return], [precess] has been called
    once, whatever the number of samples ([baryvel] once per sample): on
    the apex RA = 2 pi 18/24, Dec = 30 pi/180, from 1900 to 2000, in
    radians.  With [r] and [d] the coordinates it returns, the velocity of
    the Sun is 20 times (cos d cos(pi + r), cos d sin r, sin d), and
    [pvlsr] is its projection on each source direction. *)
Theorem lsr_apex_precessed_once (ra dec julday : ndarray F)
    (nlat wlong : option F) (light : bool) (o l : option (ndarray F))
    (t : list event) (fr : frame F) :
  ugdoppler_locals premat baryvel getLST ra dec julday nlat wlong light o l
    = (t, Ok fr) ->
  exists r d,
    precess premat
      (Scalar (fdiv (fmul (fmul (flit 2) fpi) (flit 18)) (flit 24)))
      (Scalar (fmul (fdiv fpi (flit 180)) (flit 30)))
      (flit 1900) (flit 2000) None true = Ok (Arr [r], Arr [d]) /\
    vvlsr fr = (fmul (flit 20) (fmul (fcos d) (fcos (fadd fpi r))),
                fmul (flit 20) (fmul (fcos d) (fsin r)),
                fmul (flit 20) (fsin d)) /\
    pvlsr fr = map (fun NR => dot3 (vvlsr fr) (column (xxsource fr) NR))
                   (seq 0 (nin fr)) /\
    length (filter (is_call Cprecess) t) = 1 /\
    length (filter (is_call Cbaryvel) t) = nin fr.
Proof.
  intros H. apply ugdoppler_locals_inv in H.
  destruct H as (v0 & v1 & xx0 & xx1 & xx2 & th & helio & bary & vv & tobs
                 & pos & d0 & tm & pv & rows & _ & _ & _ & _ & _ & Eloop & Elsr
                 & Eobs & _ & _ & _ & _ & -> & ->).
  destruct (lsr_apex_run premat) as (r & d & Ep & Erun).
  exists r, d. split; [exact Ep|].
  cbn [vvlsr pvlsr xxsource nin].
  split; [congruence|]. split; [reflexivity|].
  apply orbit_loop_trace in Eloop. subst th.
  rewrite observer_run in Eobs.
  assert (Hobs : filter (is_call Cprecess) tobs = []
                 /\ filter (is_call Cbaryvel) tobs = []).
  { destruct (truthy nlat && truthy wlong); injection Eobs as <- _; now split. }
  destruct Hobs as [Hp Hb].
  rewrite !filter_app, Hp, Hb, length_seq. cbn [filter is_call app length].
  set (n := match np_len ra with Ok n => n | Raise _ => 1 end).
  assert (Hrep : forall c, filter (is_call c) (repeat (EvCall Cbaryvel) n)
                           = if is_call c (EvCall Cbaryvel)
                             then repeat (EvCall Cbaryvel) n else []).
  { intros c. induction n as [|k IH]; simpl.
    - now destruct c.
    - rewrite IH. now destruct c. }
  rewrite !Hrep. cbn [is_call length app]. rewrite !length_app, repeat_length.
  cbn [length]. split; lia.
Qed.

(** C3, as amended.  [ugdoppler] has no check of its own on the lengths.
    With arrays for inputs it returns a result exactly when Dec has the
    length of RA or length one, and Julian day has the length of RA (or
    length one with an empty RA); every other combination of lengths ends
    in the [ValueError] of a NumPy broadcast or in the [IndexError] of
    [julday[NR]], raised on the way, and nothing is returned. *)
Theorem ugdoppler_length_check (ra dec jd : list F) (nlat wlong : option F)
    (light : bool) (o l : option (ndarray F)) :
  is_ok (outcome (ugdoppler premat baryvel getLST (Arr ra) (Arr dec) (Arr jd)
                    nlat wlong light o l))
    = shapes_accepted (length ra) (length dec) (length jd) /\
  (forall e,
     outcome (ugdoppler premat baryvel getLST (Arr ra) (Arr dec) (Arr jd)
                nlat wlong light o l) = Raise e ->
     e = ValueError \/ e = IndexError).
Proof.
  split.
  - destruct (shapes_accepted (length ra) (length dec) (length jd)) eqn:Hs.
    + destruct (ugdoppler_locals_batch premat baryvel getLST ra dec jd
                  nlat wlong light o l Hs) as (t & fr & p & E & _).
      now rewrite (ugdoppler_ok _ _ _ _ _ _ _ _ _ _ _ E).
    + destruct (ugdoppler _ _ _ _ _ _ _ _ _ _ _) as [t [rows|e]] eqn:E;
        [|reflexivity].
      apply ugdoppler_inv in E. destruct E as (fr & E & _).
      apply ugdoppler_locals_shapes in E. congruence.
  - intros e He. apply ugdoppler_outcome_raise in He.
    now apply ugdoppler_locals_raises in He.
Qed.

(** C8, what the code does.  A call hands its caller the velocity matrix
    and nothing else: four rows, one entry per sample.  The observatory
    position and the sidereal time are locals of the run, and what the
    caller passes for the keywords [obspos_deg] and [lst_mean] is never
    read. *)
Theorem ugdoppler_returns_matrix_only (ra dec julday : ndarray F)
    (nlat wlong : option F) (light : bool) (o l : option (ndarray F))
    (t : list event) (rows : list (list F)) :
  ugdoppler premat baryvel getLST ra dec julday nlat wlong light o l
    = (t, Ok rows) ->
  (exists fr,
     ugdoppler_locals premat baryvel getLST ra dec julday nlat wlong light o l
       = (t, Ok fr) /\
     rows = vtotal fr /\
     length rows = 4 /\
     Forall (fun row => length row = nin fr) rows) /\
  (forall o' l',
     ugdoppler premat baryvel getLST ra dec julday nlat wlong light o' l'
       = (t, Ok rows)).
Proof.
  intros H. split; [|intros o' l'; exact H].
  apply ugdoppler_inv in H. destruct H as (fr & E & ->).
  exists fr. split; [exact E|]. split; [reflexivity|].
  apply ugdoppler_locals_inv in E.
  destruct E as (v0 & v1 & xx0 & xx1 & xx2 & th & helio & bary & vv & tobs
                 & pos & d0 & tm & pv & rows & _ & _ & _ & _ & _ & _ & _
                 & _ & _ & _ & _ & Ec & _ & ->).
  cbn [vtotal nin].
  set (n := match np_len ra with Ok n => n | Raise _ => 1 end) in *.
  unfold combine in Ec.
  repeat match type of Ec with
         | bindR ?r _ = _ =>
             let E := fresh "E" in
             destruct r eqn:E; cbn [bindR] in Ec; [|discriminate Ec]
         end.
  injection Ec as <-.
  repeat match goal with
         | H : assign_row _ _ = Ok _ |- _ => apply assign_row_length in H
         end.
  destruct light; cbn [in_unit map length]; (split; [reflexivity|]);
    repeat constructor; rewrite ?length_map; assumption.
Qed.

(** C9, as amended.  The print statements of a run that reaches its
    [return] are: the notice of the default observatory when [nlat] and
    [wlong] are not both truthy, and none otherwise. *)
Theorem ugdoppler_prints (ra dec julday : ndarray F)
    (nlat wlong : option F) (light : bool) (o l : option (ndarray F))
    (t : list event) (rows : list (list F)) :
  ugdoppler premat baryvel getLST ra dec julday nlat wlong light o l
    = (t, Ok rows) ->
  filter is_print t =
    if truthy nlat && truthy wlong then []
    else [EvPrint "I am defaulting to Campbell Hall coordinates"].
Proof.
  intros H. apply ugdoppler_inv in H. destruct H as (fr & E & _).
  apply ugdoppler_locals_inv in E.
  destruct E as (v0 & v1 & xx0 & xx1 & xx2 & th & helio & bary & vv & tobs
                 & pos & d0 & tm & pv & rows' & _ & _ & _ & _ & _ & Eloop & _
                 & Eobs & _ & _ & _ & _ & -> & _).
  apply orbit_loop_trace in Eloop. subst th.
  rewrite !filter_app. cbn [filter is_print app].
  assert (Hrep : forall n, filter is_print (repeat (EvCall Cbaryvel) n) = []).
  { induction n as [|k IH]; simpl; auto. }
  rewrite Hrep, app_nil_r. cbn [app].
  rewrite observer_run in Eobs.
  destruct (truthy nlat && truthy wlong); injection Eobs as <- _; reflexivity.
Qed.

(** C10.  In a run that reaches its [return], the observatory used is the
    pair supplied when [nlat] and [wlong] are both truthy, and Campbell
    Hall (37.8732, 122.2573) in every other case; then the call is, in
    what it returns and in what it logs, the call without [nlat] and
    [wlong]. *)
Theorem observer_needs_both_truthy (ra dec julday : ndarray F)
    (nlat wlong : option F) (light : bool) (o l : option (ndarray F))
    (t : list event) (fr : frame F) :
  ugdoppler_locals premat baryvel getLST ra dec julday nlat wlong light o l
    = (t, Ok fr) ->
  obspos_deg fr =
    match nlat, wlong with
    | Some la, Some lo =>
        if ftruthy la && ftruthy lo then (la, lo)
        else (flit 37.8732, flit 122.2573)
    | _, _ => (flit 37.8732, flit 122.2573)
    end /\
  (truthy nlat && truthy wlong = false ->
   ugdoppler premat baryvel getLST ra dec julday nlat wlong light o l =
   ugdoppler premat baryvel getLST ra dec julday None None light o l).
Proof.
  intros H. split.
  - apply ugdoppler_locals_inv in H.
    destruct H as (v0 & v1 & xx0 & xx1 & xx2 & th & helio & bary & vv & tobs
                   & pos & d0 & tm & pv & rows & _ & _ & _ & _ & _ & _ & _
                   & Eobs & _ & _ & _ & _ & _ & ->).
    cbn [obspos_deg]. unfold observer in Eobs.
    destruct nlat as [la|], wlong as [lo|];
      try (now injection Eobs as _ <-).
    destruct (ftruthy la && ftruthy lo); now injection Eobs as _ <-.
  - intros Hf. unfold ugdoppler, ugdoppler_locals.
    rewrite !observer_run, Hf. reflexivity.
Qed.

End DopplerClaims.

(** ** precess: shapes and failures *)

Section PrecessFacts.
Context {F : Type} {FL : Float64 F}.
Variable premat : F -> F -> option bool -> mat3 F.

(** In degrees [precess] works sample by sample on vectors of one length. *)
Lemma precess_degrees_elementwise (ra dec : list F) (e1 e2 : F)
    (fk4 : option bool) :
  length ra = length dec ->
  precess premat (Arr ra) (Arr dec) e1 e2 fk4 false =
    Ok (Arr (map2 (fun a d => fst (precess_point (premat e1 e2 fk4) a d)) ra dec),
        Arr (map2 (fun a d => snd (precess_point (premat e1 e2 fk4) a d)) ra dec)).
Proof.
  intros E. unfold precess, rotated. cbn [np_len negb nd_map bindR].
  rewrite <- E, Nat.min_id.
  rewrite !broadcast_same_length by (now rewrite !length_map). cbn [bindR].
  rewrite !assign_row_fit
    by (rewrite ?map2_length; rewrite !length_map; congruence).
  cbn [bindR].
  destruct (premat e1 e2 fk4) as [[r0 r1] r2]. cbn [bindR negb].
  unfold dot_row, precess_point, rotate, dircos.
  f_equal. f_equal; f_equal.
  - revert dec E; induction ra as [|a ra IH]; intros [|d dec] E;
      try discriminate; [reflexivity|].
    cbn [map map2 map3 fst]. f_equal. apply IH. now injection E.
  - revert dec E; induction ra as [|a ra IH]; intros [|d dec] E;
      try discriminate; [reflexivity|].
    cbn [map map2 map3 snd]. f_equal. apply IH. now injection E.
Qed.

(** On a pair of floats it returns arrays of one element. *)
Lemma precess_degrees_scalar (ra dec e1 e2 : F) (fk4 : option bool) :
  precess premat (Scalar ra) (Scalar dec) e1 e2 fk4 false =
    Ok (Arr [fst (precess_point (premat e1 e2 fk4) ra dec)],
        Arr [snd (precess_point (premat e1 e2 fk4) ra dec)]).
Proof.
  unfold precess, rotated, precess_point, rotate, dircos. simpl.
  destruct (premat e1 e2 fk4) as [[r0 r1] r2]. reflexivity.
Qed.

Lemma rotated_degrees_scalar (ra dec e1 e2 : F) (fk4 : option bool) :
  rotated premat (Scalar ra) (Scalar dec) e1 e2 fk4 false =
    let '(x2_0, x2_1, x2_2) :=
      rotate (premat e1 e2 fk4)
        (dircos (fmul ra deg_to_rad) (fmul dec deg_to_rad)) in
    Ok ([x2_0], [x2_1], [x2_2]).
Proof.
  unfold rotated, rotate, dircos. simpl.
  destruct (premat e1 e2 fk4) as [[r0 r1] r2]. reflexivity.
Qed.

Lemma precess_radian_scalar (ra dec e1 e2 : F) (fk4 : option bool) :
  precess premat (Scalar ra) (Scalar dec) e1 e2 fk4 true =
    let '(x2_0, x2_1, x2_2) := rotate (premat e1 e2 fk4) (dircos ra dec) in
    Ok (Arr [farctan2 x2_1 x2_0], Arr [farcsin x2_2]).
Proof.
  unfold precess, rotated, rotate, dircos. simpl.
  destruct (premat e1 e2 fk4) as [[r0 r1] r2]. reflexivity.
Qed.

(** The declination is [arcsin] of the third row of [x2], as it is. *)
Lemma precess_dec_raw (ra dec : ndarray F) (e1 e2 : F) (fk4 : option bool)
    (radian : bool) (ra' dec' : ndarray F) :
  precess premat ra dec e1 e2 fk4 radian = Ok (ra', dec') ->
  exists x2_0 x2_1 x2_2,
    rotated premat ra dec e1 e2 fk4 radian = Ok (x2_0, x2_1, x2_2) /\
    dec' = Arr (map (fun z => if radian then farcsin z
                              else fdiv (farcsin z) deg_to_rad) x2_2).
Proof.
  unfold precess.
  destruct (rotated premat ra dec e1 e2 fk4 radian) as [[[x2_0 x2_1] x2_2]|e];
    [|discriminate].
  cbn [bindR]. intros H. exists x2_0, x2_1, x2_2. split; [reflexivity|].
  destruct radian; cbn [negb] in H; injection H as _ <-;
    [|rewrite map_map]; reflexivity.
Qed.

(** C7, what the code does.  With [radian=True] the inputs go through
    [float()]: vectors are refused with a [TypeError] unless both have
    exactly one element. *)
Theorem precess_radian_rejects_vectors (ra dec : list F) (e1 e2 : F)
    (fk4 : option bool) :
  length ra <> 1 \/ length dec <> 1 ->
  precess premat (Arr ra) (Arr dec) e1 e2 fk4 true = Raise TypeError.
Proof.
  intros H. unfold precess, rotated. cbn [negb py_float].
  destruct ra as [|a [|a' ra]]; try reflexivity.
  destruct dec as [|d [|d' dec]]; try reflexivity.
  simpl in H. destruct H as [H|H]; now elim H.
Qed.

End PrecessFacts.

(** ** Exact arithmetic: the arctangent of two arguments *)

Section RealFacts.
Local Open Scope R_scope.

Ltac case_dec :=
  repeat match goal with
         | |- context [Rlt_dec ?a ?b] => destruct (Rlt_dec a b)
         | |- context [Rle_dec ?a ?b] => destruct (Rle_dec a b)
         end.

Lemma atan2_range (y x : R) : - PI < atan2 y x <= PI.
Proof.
  pose proof PI_RGT_0 as Hpi. unfold atan2.
  pose proof (atan_bound (y / x)) as Hb.
  destruct (Rlt_dec 0 x) as [Hx|Hx]; [lra|].
  destruct (Rlt_dec x 0) as [Hx'|Hx'].
  - assert (Hinv : / x < 0) by now apply Rinv_lt_0_compat.
    destruct (Rle_dec 0 y) as [Hy|Hy].
    + assert (Hq : y / x <= 0) by (unfold Rdiv; nra).
      assert (atan (y / x) <= 0).
      { destruct (Req_dec (y / x) 0) as [->|Hn].
        - rewrite atan_0. lra.
        - left. rewrite <- atan_0. apply atan_increasing. lra. }
      lra.
    + assert (Hq : 0 < y / x) by (unfold Rdiv; nra).
      assert (0 < atan (y / x)).
      { rewrite <- atan_0. now apply atan_increasing. }
      lra.
  - case_dec; lra.
Qed.

Lemma tan_shift (x : R) : tan (x + PI) = tan x.
Proof.
  unfold tan. rewrite neg_sin, neg_cos. unfold Rdiv.
  destruct (Req_dec (cos x) 0) as [E|NE].
  - rewrite E, Ropp_0, Rinv_0. lra.
  - field. exact NE.
Qed.

(** [atan2] recovers the angle of a point given in polar form. *)
Lemma atan2_polar (rho theta : R) :
  0 < rho -> - PI < theta <= PI ->
  atan2 (rho * sin theta) (rho * cos theta) = theta.
Proof.
  intros Hrho [Hlo Hhi]. pose proof PI_RGT_0 as Hpi.
  assert (Htan : cos theta <> 0 ->
                 rho * sin theta / (rho * cos theta) = tan theta).
  { intros Hc. unfold tan. field. lra. }
  unfold atan2.
  destruct (Rlt_le_dec theta (- (PI / 2))) as [H1|H1].
  - assert (Hc : cos theta < 0).
    { rewrite <- cos_neg. apply cos_lt_0; lra. }
    assert (Hs : sin theta < 0) by (apply sin_lt_0_var; lra).
    assert (rho * cos theta < 0) by nra.
    assert (rho * sin theta < 0) by nra.
    case_dec; try lra.
    rewrite Htan by lra. rewrite <- tan_shift, atan_tan; lra.
  - destruct (Req_dec theta (- (PI / 2))) as [->|N1].
    + rewrite cos_neg, sin_neg, cos_PI2, sin_PI2.
      case_dec; lra.
    + destruct (Rlt_le_dec theta (PI / 2)) as [H2|H2].
      * assert (Hc : 0 < cos theta) by (apply cos_gt_0; lra).
        assert (0 < rho * cos theta) by nra.
        case_dec; try lra.
        rewrite Htan by lra. apply atan_tan. lra.
      * destruct (Req_dec theta (PI / 2)) as [->|N2].
        -- rewrite cos_PI2, sin_PI2. case_dec; lra.
        -- assert (Hc : cos theta < 0) by (apply cos_lt_0; lra).
           assert (Hs : 0 <= sin theta) by (apply sin_ge_0; lra).
           assert (rho * cos theta < 0) by nra.
           assert (0 <= rho * sin theta) by nra.
           case_dec; try lra.
           rewrite Htan by lra.
           replace (tan theta) with (tan (theta - PI))
             by (rewrite <- (tan_shift (theta - PI)); f_equal; lra).
           rewrite atan_tan; lra.
Qed.

Lemma sin_full_turn (x : R) : sin (x - 2 * PI) = sin x.
Proof.
  rewrite <- (sin_period (x - 2 * PI) 1). f_equal. simpl. lra.
Qed.

Lemma cos_full_turn (x : R) : cos (x - 2 * PI) = cos x.
Proof.
  rewrite <- (cos_period (x - 2 * PI) 1). f_equal. simpl. lra.
Qed.

(** The angle of a point given in polar form with an angle in [0, 2 PI):
    [atan2] returns it less a full turn in the upper half of the range. *)
Lemma atan2_polar_turn (rho theta : R) :
  0 < rho -> 0 <= theta < 2 * PI ->
  atan2 (rho * sin theta) (rho * cos theta) =
    if Rle_dec theta PI then theta else theta - 2 * PI.
Proof.
  intros Hrho [Hlo Hhi]. pose proof PI_RGT_0 as Hpi.
  destruct (Rle_dec theta PI) as [H|H].
  - apply atan2_polar; lra.
  - rewrite <- (sin_full_turn theta), <- (cos_full_turn theta).
    apply atan2_polar; lra.
Qed.

(** *** The literals and the operations of [npreal] *)

Lemma Q2R_0 : Q2R 0 = 0.
Proof. unfold Q2R; cbn [Qnum Qden]. lra. Qed.

Lemma Q2R_1 : Q2R 1 = 1.
Proof. unfold Q2R; cbn [Qnum Qden]. lra. Qed.

Lemma Q2R_m1 : Q2R (-1) = -1.
Proof. unfold Q2R; cbn [Qnum Qden]. lra. Qed.

Lemma Q2R_180 : Q2R 180 = 180.
Proof. unfold Q2R; cbn [Qnum Qden]. lra. Qed.

Lemma Q2R_360 : Q2R 360 = 360.
Proof. unfold Q2R; cbn [Qnum Qden]. lra. Qed.

Lemma deg_to_rad_npreal : @deg_to_rad npreal _ = Fin (PI / 180).
Proof.
  unfold deg_to_rad. cbn [fdiv fpi flit npreal_float64 np_div].
  rewrite Q2R_180. destruct (Req_dec_T 180 0) as [E|_]; [lra|reflexivity].
Qed.

Lemma np_div_fin (a b : R) : b <> 0 -> np_div (Fin a) (Fin b) = Fin (a / b).
Proof.
  intros Hb. unfold np_div. now destruct (Req_dec_T b 0).
Qed.

Lemma wrap360_fin (v : R) :
  @wrap360 npreal _ (Fin v) = Fin (if Rlt_dec v 0 then v + 360 else v).
Proof.
  unfold wrap360, of_bool.
  cbn [fadd fmul fltb flit npreal_float64 np_ltb lift2].
  rewrite Q2R_0, Q2R_360.
  destruct (Rlt_dec v 0); cbn [lift2]; rewrite ?Q2R_0, ?Q2R_1; f_equal; lra.
Qed.

Lemma np_arcsin_in (z : R) : -1 <= z <= 1 -> np_arcsin (Fin z) = Fin (asin z).
Proof.
  intros [H1 H2]. unfold np_arcsin. case_dec; try lra. reflexivity.
Qed.

Lemma np_arcsin_out (z : R) : z < -1 \/ 1 < z -> np_arcsin (Fin z) = NaN.
Proof.
  intros H. unfold np_arcsin. case_dec; try lra; reflexivity.
Qed.

Lemma np_truthy_0 : np_truthy (Fin 0) = false.
Proof. unfold np_truthy. destruct (Req_dec_T 0 0); [reflexivity|lra]. Qed.

Lemma np_truthy_nonzero (x : R) : x <> 0 -> np_truthy (Fin x) = true.
Proof. intros H. unfold np_truthy. now destruct (Req_dec_T x 0). Qed.

(** One sample through [precess], in degrees, for a matrix of reals. *)
Lemma precess_point_fin (a b c d e f g h i ra dec : R) :
  precess_point ((Fin a, Fin b, Fin c), (Fin d, Fin e, Fin f), (Fin g, Fin h, Fin i))
    (Fin ra) (Fin dec) =
  let th := ra * (PI / 180) in
  let de := dec * (PI / 180) in
  let x := cos de * cos th in
  let y := cos de * sin th in
  let z := sin de in
  (Fin (let v := atan2 (d * x + e * y + f * z) (a * x + b * y + c * z) / (PI / 180)
        in if Rlt_dec v 0 then v + 360 else v),
   np_div (np_arcsin (Fin (g * x + h * y + i * z))) (Fin (PI / 180))).
Proof.
  pose proof PI_RGT_0 as Hpi.
  unfold precess_point, rotate, dircos. rewrite deg_to_rad_npreal.
  cbn [fmul fcos fsin npreal_float64 lift1 lift2 dot3 vec3_mul vec3_list np_sum
       fold_left fadd farctan2 farcsin fdiv].
  rewrite np_div_fin by lra. now rewrite wrap360_fin.
Qed.

(** In degrees the right ascension returned lies in [0, 360), whatever the
    matrix. *)
Lemma precess_point_ra_range (a b c d e f g h i ra dec : R) :
  exists v,
    fst (precess_point
           ((Fin a, Fin b, Fin c), (Fin d, Fin e, Fin f), (Fin g, Fin h, Fin i))
           (Fin ra) (Fin dec)) = Fin v /\ 0 <= v < 360.
Proof.
  pose proof PI_RGT_0 as Hpi.
  rewrite precess_point_fin. cbn [fst]. eexists; split; [reflexivity|].
  cbv zeta.
  match goal with |- context [atan2 ?y ?x] =>
    pose proof (atan2_range y x) as [Hlo Hhi]; set (w := atan2 y x) in * end.
  set (q := w / (PI / 180)).
  assert (Eq : w = q * (PI / 180)) by (unfold q; field; lra).
  assert (Hw : -180 < q <= 180) by (split; nra).
  destruct (Rlt_dec q 0); lra.
Qed.

(** The identity matrix leaves a sample away from the poles where it is. *)
Lemma precess_point_identity (ra dec : R) :
  0 <= ra < 360 -> -90 < dec < 90 ->
  precess_point identity3 (Fin ra) (Fin dec) = (Fin ra, Fin dec).
Proof.
  intros Hra Hdec. pose proof PI_RGT_0 as Hpi.
  unfold identity3. rewrite precess_point_fin. cbv zeta.
  set (th := ra * (PI / 180)). set (de := dec * (PI / 180)).
  assert (Hth : 0 <= th < 2 * PI) by (unfold th; nra).
  assert (Hde : - (PI / 2) < de < PI / 2) by (unfold de; nra).
  assert (Hrho : 0 < cos de) by (apply cos_gt_0; lra).
  replace (0 * (cos de * cos th) + 1 * (cos de * sin th) + 0 * sin de)
    with (cos de * sin th) by ring.
  replace (1 * (cos de * cos th) + 0 * (cos de * sin th) + 0 * sin de)
    with (cos de * cos th) by ring.
  replace (0 * (cos de * cos th) + 0 * (cos de * sin th) + 1 * sin de)
    with (sin de) by ring.
  rewrite (atan2_polar_turn Hrho Hth).
  rewrite np_arcsin_in by (pose proof (SIN_bound de); lra).
  rewrite asin_sin by lra. rewrite np_div_fin by lra.
  f_equal.
  - f_equal. destruct (Rle_dec th PI) as [H|H].
    + assert (E : th / (PI / 180) = ra) by (unfold th; field; lra).
      rewrite E. destruct (Rlt_dec ra 0); lra.
    + assert (E : (th - 2 * PI) / (PI / 180) = ra - 360)
        by (unfold th; field; lra).
      rewrite E. destruct (Rlt_dec (ra - 360) 0); lra.
  - f_equal. unfold de. field. lra.
Qed.

End RealFacts.

(** ** precess: the claims *)

Section PrecessClaims.
Local Open Scope R_scope.

(** C4, what the code does.  The source at RA 270 degrees on the equator,
    precessed between equal epochs: in degrees [precess] returns RA 270,
    in radians it returns RA -pi/2, the value of [arctan2] as it is, and
    not 3 pi/2. *)
Theorem precess_radian_negative_ra :
  precess premat_identity (Scalar (Fin 270)) (Scalar (Fin 0))
    (flit 2000) (flit 2000) None false = Ok (Arr [Fin 270], Arr [Fin 0]) /\
  precess premat_identity (Scalar (Fin (3 * (PI / 2)))) (Scalar (Fin 0))
    (flit 2000) (flit 2000) None true
    = Ok (Arr [Fin (- (PI / 2))], Arr [Fin 0]).
Proof.
  pose proof PI_RGT_0 as Hpi. split.
  - rewrite precess_degrees_scalar. unfold premat_identity.
    rewrite precess_point_identity by lra. reflexivity.
  - rewrite precess_radian_scalar. unfold premat_identity, identity3.
    cbn [rotate dircos dot3 vec3_mul vec3_list np_sum fold_left
         fmul fadd fcos fsin farctan2 farcsin npreal_float64 lift1 lift2].
    rewrite cos_0, sin_0, cos_3PI2, sin_3PI2.
    replace (1 * (1 * 0) + 0 * (1 * -1) + 0 * 0) with 0 by ring.
    replace (0 * (1 * 0) + 1 * (1 * -1) + 0 * 0) with (-1) by ring.
    replace (0 * (1 * 0) + 0 * (1 * -1) + 1 * 0) with 0 by ring.
    rewrite np_arcsin_in by lra. rewrite asin_0.
    repeat f_equal. unfold atan2.
    repeat match goal with
           | |- context [Rlt_dec ?a ?b] => destruct (Rlt_dec a b)
           | |- context [Rle_dec ?a ?b] => destruct (Rle_dec a b)
           end; lra.
Qed.

(** The pole, with a matrix one unit in the last place off the identity:
    the third direction cosine leaves [-1, 1]. *)
Lemma rotated_one_ulp_pole :
  rotated premat_one_ulp (Scalar (Fin 0)) (Scalar (Fin 90))
    (flit 2000) (flit 2000) None false
  = Ok ([Fin 0], [Fin 0], [Fin (1 + / 2 ^ 52)]).
Proof.
  pose proof PI_RGT_0 as Hpi.
  rewrite rotated_degrees_scalar. unfold premat_one_ulp, rotate, dircos.
  rewrite deg_to_rad_npreal.
  cbn [dot3 vec3_mul vec3_list np_sum fold_left
       fmul fadd fcos fsin npreal_float64 lift1 lift2].
  replace (90 * (PI / 180)) with (PI / 2) by field.
  replace (0 * (PI / 180)) with 0 by ring.
  rewrite cos_PI2, sin_PI2, cos_0, sin_0.
  replace (1 * (0 * 1) + 0 * (0 * 0) + 0 * 1) with 0 by ring.
  replace (0 * (0 * 1) + 1 * (0 * 0) + 0 * 1) with 0 by ring.
  replace (0 * (0 * 1) + 0 * (0 * 0) + (1 + / 2 ^ 52) * 1)
    with (1 + / 2 ^ 52) by ring.
  reflexivity.
Qed.

Lemma atan2_0_0 : atan2 0 0 = 0.
Proof.
  unfold atan2.
  repeat match goal with
         | |- context [Rlt_dec ?a ?b] => destruct (Rlt_dec a b)
         end; lra.
Qed.

(** There the declination [precess] returns is invalid. *)
Lemma precess_one_ulp_pole :
  precess premat_one_ulp (Scalar (Fin 0)) (Scalar (Fin 90))
    (flit 2000) (flit 2000) None false = Ok (Arr [Fin 0], Arr [NaN]).
Proof.
  pose proof PI_RGT_0 as Hpi.
  assert (Hu : 0 < / 2 ^ 52) by (apply Rinv_0_lt_compat, pow_lt; lra).
  unfold precess. rewrite rotated_one_ulp_pole.
  cbn [bindR negb map map2 farctan2 farcsin fdiv npreal_float64 lift2].
  rewrite deg_to_rad_npreal, atan2_0_0, np_arcsin_out by lra.
  rewrite np_div_fin by lra. cbn [np_div].
  replace (0 / (PI / 180)) with 0 by (field; lra).
  rewrite wrap360_fin. destruct (Rlt_dec 0 0); [lra|]. reflexivity.
Qed.

(** C5, against the claim.  On that input [precess] returns an invalid
    declination, where clamping before [arcsin] would have given 90. *)
Lemma precess_pole_not_clamped :
  precess premat_one_ulp (Scalar (Fin 0)) (Scalar (Fin 90))
    (flit 2000) (flit 2000) None false = Ok (Arr [Fin 0], Arr [NaN]) /\
  precess_clamped premat_one_ulp (Scalar (Fin 0)) (Scalar (Fin 90))
    (flit 2000) (flit 2000) None false = Ok (Arr [Fin 0], Arr [Fin 90]).
Proof.
  split; [exact precess_one_ulp_pole|].
  pose proof PI_RGT_0 as Hpi.
  assert (Hu : 0 < / 2 ^ 52) by (apply Rinv_0_lt_compat, pow_lt; lra).
  unfold precess_clamped. rewrite rotated_one_ulp_pole.
  cbn [bindR negb map map2 farctan2 farcsin fdiv npreal_float64 lift2].
  rewrite deg_to_rad_npreal, atan2_0_0.
  rewrite np_div_fin by lra.
  replace (0 / (PI / 180)) with 0 by (field; lra).
  rewrite wrap360_fin. destruct (Rlt_dec 0 0); [lra|].
  unfold clamp. cbn [fltb flit npreal_float64 np_ltb].
  rewrite Q2R_1, Q2R_m1.
  destruct (Rlt_dec (1 + / 2 ^ 52) (-1)); [lra|].
  destruct (Rlt_dec 1 (1 + / 2 ^ 52)); [|lra].
  rewrite np_arcsin_in by lra. rewrite asin_1, np_div_fin by lra.
  replace (PI / 2 / (PI / 180)) with 90 by (field; lra).
  reflexivity.
Qed.

Variable premat : npreal -> npreal -> option bool -> mat3 npreal.

(** C5, as amended.  [precess] applies [arcsin] to the third row of the
    rotated direction cosines as it is: an entry outside [-1, 1] gives the
    invalid value, which is returned to the caller as the declination;
    an entry inside gives its arcsine, in the unit of the call. *)
Theorem precess_dec_unclamped (ra dec : ndarray npreal) (e1 e2 : npreal)
    (fk4 : option bool) (radian : bool) (ra' dec' : ndarray npreal) :
  precess premat ra dec e1 e2 fk4 radian = Ok (ra', dec') ->
  exists x2_0 x2_1 x2_2 ds,
    rotated premat ra dec e1 e2 fk4 radian = Ok (x2_0, x2_1, x2_2) /\
    dec' = Arr ds /\
    length ds = length x2_2 /\
    forall (j : nat) (z : R),
      nth_error x2_2 j = Some (Fin z) ->
      (z < -1 \/ 1 < z -> nth_error ds j = Some NaN) /\
      (-1 <= z <= 1 ->
       nth_error ds j =
         Some (Fin (if radian then asin z else asin z / (PI / 180)))).
Proof.
  pose proof PI_RGT_0 as Hpi.
  intros H. apply precess_dec_raw in H.
  destruct H as (x2_0 & x2_1 & x2_2 & Er & ->).
  exists x2_0, x2_1, x2_2. eexists. split; [exact Er|].
  split; [reflexivity|]. split; [apply length_map|].
  intros j z Hj. rewrite nth_error_map, Hj. cbn [option_map farcsin npreal_float64].
  rewrite deg_to_rad_npreal. split; intros Hz.
  - rewrite np_arcsin_out by exact Hz. now destruct radian.
  - rewrite np_arcsin_in by exact Hz. destruct radian; [reflexivity|].
    cbn [fdiv npreal_float64]. now rewrite np_div_fin by lra.
Qed.

(** C6.  With the matrix of equal epochs the identity, [precess] in
    degrees returns vectors of coordinates, and a pair of floats, as they
    were, whatever the epoch and in FK4 as in FK5: for right ascensions
    in [0, 360) and declinations strictly between the poles. *)
Theorem precess_equal_epochs_identity (E : npreal) (fk4 : option bool) :
  premat E E fk4 = identity3 ->
  (forall ra dec : list R,
     length ra = length dec ->
     Forall (fun a => 0 <= a < 360) ra ->
     Forall (fun d => -90 < d < 90) dec ->
     precess premat (Arr (map Fin ra)) (Arr (map Fin dec)) E E fk4 false
       = Ok (Arr (map Fin ra), Arr (map Fin dec))) /\
  (forall a d : R,
     0 <= a < 360 -> -90 < d < 90 ->
     precess premat (Scalar (Fin a)) (Scalar (Fin d)) E E fk4 false
       = Ok (Arr [Fin a], Arr [Fin d])).
Proof.
  intros Hid. split.
  - intros ra dec Hlen Hra Hdec.
    rewrite precess_degrees_elementwise by (now rewrite !length_map).
    rewrite Hid. do 2 f_equal; f_equal.
    + revert dec Hlen Hdec; induction Hra as [|a ra Ha Hra IH];
        intros [|d dec] Hlen Hdec; try discriminate; [reflexivity|].
      inversion Hdec; subst. cbn [map map2].
      rewrite precess_point_identity by assumption. cbn [fst].
      f_equal. apply IH; [now injection Hlen|assumption].
    + revert dec Hlen Hdec; induction Hra as [|a ra Ha Hra IH];
        intros [|d dec] Hlen Hdec; try discriminate; [reflexivity|].
      inversion Hdec; subst. cbn [map map2].
      rewrite precess_point_identity by assumption. cbn [snd].
      f_equal. apply IH; [now injection Hlen|assumption].
  - intros a d Ha Hd. rewrite precess_degrees_scalar, Hid.
    now rewrite precess_point_identity.
Qed.

End PrecessClaims.

(** ** The claims on concrete calls *)

Section Examples.
Local Open Scope R_scope.

(** C1 on two samples. *)
Lemma ugdoppler_combines_rows_witness :
  exists t fr p,
    ugdoppler_locals premat_identity baryvel_rest getLST_zero
      (Arr [Fin 0; Fin 6]) (Arr [Fin 30; Fin 40])
      (Arr [Fin 2451545; Fin 2451546]) None None false None None
      = (t, Ok fr) /\
    pvspin fr = Arr p /\
    ugdoppler premat_identity baryvel_rest getLST_zero
      (Arr [Fin 0; Fin 6]) (Arr [Fin 30; Fin 40])
      (Arr [Fin 2451545; Fin 2451546]) None None false None None
      = (t, Ok [map fneg p;
                map2 fsub (map fneg p) (pvorbit_helio fr);
                map2 fsub (map fneg p) (pvorbit_bary fr);
                map2 fsub (map2 fsub (map fneg p) (pvorbit_bary fr))
                  (pvlsr fr)]).
Proof.
  destruct (ugdoppler_combines_rows premat_identity baryvel_rest getLST_zero
              [Fin 0; Fin 6] [Fin 30; Fin 40] [Fin 2451545; Fin 2451546]
              None None false None None eq_refl eq_refl)
    as (t & fr & p & E & Ep & _ & _ & _ & _ & Eu).
  exists t, fr, p. repeat split; assumption.
Defined.

(** C2 on two samples: one call of [precess], two of [baryvel]. *)
Lemma lsr_apex_precessed_once_witness :
  exists t fr,
    ugdoppler_locals premat_identity baryvel_rest getLST_zero
      (Arr [Fin 0; Fin 6]) (Arr [Fin 30; Fin 40])
      (Arr [Fin 2451545; Fin 2451546]) None None false None None
      = (t, Ok fr) /\
    length (filter (is_call Cprecess) t) = 1%nat /\
    length (filter (is_call Cbaryvel) t) = 2%nat.
Proof.
  eexists _, _. split; [reflexivity|].
  match goal with
  | |- length (filter _ ?t) = _ /\ _ =>
      destruct (lsr_apex_precessed_once premat_identity baryvel_rest getLST_zero
                  (Arr [Fin 0; Fin 6]) (Arr [Fin 30; Fin 40])
                  (Arr [Fin 2451545; Fin 2451546]) None None false None None
                  (t := t) eq_refl)
        as (r & d & _ & _ & _ & H1 & H2)
  end.
  split; [exact H1|exact H2].
Defined.

(** C3, against the claim.  A Dec of one element with two RAs and two
    Julian days is accepted, and a result of four rows of two returned;
    one Julian day with two RAs is refused by [julday[1]], after
    [baryvel] has been called for the first sample. *)
Lemma ugdoppler_unequal_lengths :
  (exists t rows,
     ugdoppler premat_identity baryvel_rest getLST_zero
       (Arr [Fin 0; Fin 6]) (Arr [Fin 30])
       (Arr [Fin 2451545; Fin 2451546]) None None false None None
       = (t, Ok rows) /\ map (@length npreal) rows = [2; 2; 2; 2]%nat) /\
  ugdoppler premat_identity baryvel_rest getLST_zero
    (Arr [Fin 0; Fin 6]) (Arr [Fin 30; Fin 40])
    (Arr [Fin 2451545]) None None false None None
    = ([EvCall Cbaryvel], Raise IndexError).
Proof.
  split; [|reflexivity].
  eexists _, _. split; reflexivity.
Qed.

(** C5 at the pole. *)
Lemma precess_dec_unclamped_witness :
  exists x2_0 x2_1 x2_2 ds,
    rotated premat_one_ulp (Scalar (Fin 0)) (Scalar (Fin 90))
      (flit 2000) (flit 2000) None false = Ok (x2_0, x2_1, x2_2) /\
    Arr [NaN] = Arr ds /\
    length ds = length x2_2 /\
    forall (j : nat) (z : R),
      nth_error x2_2 j = Some (Fin z) ->
      (z < -1 \/ 1 < z -> nth_error ds j = Some NaN) /\
      (-1 <= z <= 1 -> nth_error ds j = Some (Fin (asin z / (PI / 180)))).
Proof.
  exact (precess_dec_unclamped premat_one_ulp (Scalar (Fin 0)) (Scalar (Fin 90))
           (flit 2000) (flit 2000) None false precess_one_ulp_pole).
Defined.

(** C6 on two sources, in FK4, at 1950. *)
Lemma precess_equal_epochs_identity_witness :
  precess premat_identity (Arr [Fin 10; Fin 200]) (Arr [Fin 20; Fin (-30)])
    (flit 1950) (flit 1950) (Some true) false
  = Ok (Arr [Fin 10; Fin 200], Arr [Fin 20; Fin (-30)]).
Proof.
  apply (proj1 (precess_equal_epochs_identity premat_identity (flit 1950)
                  (Some true) eq_refl) [10; 200] [20; -30]).
  - reflexivity.
  - repeat constructor; lra.
  - repeat constructor; lra.
Defined.

(** C7 on two sources, in radians. *)
Lemma precess_radian_rejects_vectors_witness :
  precess premat_identity (Arr [Fin 1; Fin 2]) (Arr [Fin 0; Fin 0])
    (flit 1950) (flit 2000) None true = Raise TypeError.
Proof.
  apply precess_radian_rejects_vectors. left. discriminate.
Defined.

(** C8 on one sample. *)
Lemma ugdoppler_returns_matrix_only_witness :
  exists t rows,
    ugdoppler premat_identity baryvel_rest getLST_zero
      (Arr [Fin 6]) (Arr [Fin 30]) (Arr [Fin 2451545])
      (Some (Fin 10)) (Some (Fin 20)) false None None = (t, Ok rows) /\
    length rows = 4%nat /\
    forall o' l',
      ugdoppler premat_identity baryvel_rest getLST_zero
        (Arr [Fin 6]) (Arr [Fin 30]) (Arr [Fin 2451545])
        (Some (Fin 10)) (Some (Fin 20)) false o' l' = (t, Ok rows).
Proof.
  destruct (ugdoppler_locals_batch premat_identity baryvel_rest getLST_zero
              [Fin 6] [Fin 30] [Fin 2451545] (Some (Fin 10)) (Some (Fin 20))
              false None None eq_refl) as (t & fr & p & E & _).
  apply ugdoppler_ok in E.
  destruct (ugdoppler_returns_matrix_only _ _ _ _ _ _ _ _ _ _ _ E)
    as [(fr' & _ & _ & H4 & _) Hk].
  exists t, (vtotal fr). split; [exact E|]. split; [exact H4|exact Hk].
Defined.

(** C9, against the claim.  A call on one sample without [nlat] and
    [wlong] returns, having printed the notice and entered the debugger. *)
Lemma call_prints_and_breaks :
  is_ok (outcome (ugdoppler premat_identity baryvel_rest getLST_zero
                    (Arr [Fin 6]) (Arr [Fin 30]) (Arr [Fin 2451545])
                    None None false None None)) = true /\
  filter is_io
    (trace (ugdoppler premat_identity baryvel_rest getLST_zero
              (Arr [Fin 6]) (Arr [Fin 30]) (Arr [Fin 2451545])
              None None false None None))
  = [EvPrint "I am defaulting to Campbell Hall coordinates"; EvBreakpoint].
Proof. split; reflexivity. Qed.

(** C9 on that call. *)
Lemma ugdoppler_prints_witness :
  exists t rows,
    ugdoppler premat_identity baryvel_rest getLST_zero
      (Arr [Fin 6]) (Arr [Fin 30]) (Arr [Fin 2451545])
      None None false None None = (t, Ok rows) /\
    filter is_print t =
      [EvPrint "I am defaulting to Campbell Hall coordinates"].
Proof.
  eexists _, _. split; [reflexivity|].
  match goal with
  | |- filter _ ?t = _ =>
      exact (ugdoppler_prints premat_identity baryvel_rest getLST_zero
               (Arr [Fin 6]) (Arr [Fin 30]) (Arr [Fin 2451545])
               None None false None None (t := t) eq_refl)
  end.
Defined.

(** C10 for an observer on the equator: [nlat=0.] is not truthy, Campbell
    Hall is used and the call is the call without coordinates. *)
Lemma observer_needs_both_truthy_witness :
  exists t fr,
    ugdoppler_locals premat_identity baryvel_rest getLST_zero
      (Arr [Fin 6]) (Arr [Fin 30]) (Arr [Fin 2451545])
      (Some (Fin 0)) (Some (Fin 122.2573)) false None None = (t, Ok fr) /\
    obspos_deg fr = (flit 37.8732, flit 122.2573) /\
    ugdoppler premat_identity baryvel_rest getLST_zero
      (Arr [Fin 6]) (Arr [Fin 30]) (Arr [Fin 2451545])
      (Some (Fin 0)) (Some (Fin 122.2573)) false None None =
    ugdoppler premat_identity baryvel_rest getLST_zero
      (Arr [Fin 6]) (Arr [Fin 30]) (Arr [Fin 2451545])
      None None false None None.
Proof.
  destruct (ugdoppler_locals_batch premat_identity baryvel_rest getLST_zero
              [Fin 6] [Fin 30] [Fin 2451545] (Some (Fin 0))
              (Some (Fin 122.2573)) false None None eq_refl)
    as (t & fr & p & E & _).
  destruct (observer_needs_both_truthy _ _ _ _ _ _ _ _ _ _ _ E) as [H1 H2].
  cbn [ftruthy npreal_float64] in H1. rewrite np_truthy_0 in H1.
  exists t, fr. split; [exact E|]. split; [exact H1|].
  apply H2. cbn [truthy ftruthy npreal_float64]. now rewrite np_truthy_0.
Defined.

End Examples.

(** ** precess: shapes of the result, and the two angle units *)

Section PrecessShapes.
Context {F : Type} {FL : Float64 F}.
Variable premat : F -> F -> option bool -> mat3 F.

Lemma rotated_lengths (ra dec : ndarray F) (e1 e2 : F) (fk4 : option bool)
    (radian : bool) (x2_0 x2_1 x2_2 : list F) :
  rotated premat ra dec e1 e2 fk4 radian = Ok (x2_0, x2_1, x2_2) ->
  let npts := match np_len ra, np_len dec with
              | Ok n, Ok m => Nat.min n m
              | _, _ => 1
              end in
  length x2_0 = npts /\ length x2_1 = npts /\ length x2_2 = npts.
Proof.
  intros H npts. unfold rotated in H. fold npts in H.
  repeat match type of H with
         | bindR ?r _ = _ =>
             let E := fresh "E" in
             destruct r eqn:E; cbn [bindR] in H; [|discriminate H]
         end.
  destruct a as [ra_rad dec_rad].
  repeat match type of H with
         | bindR ?r _ = _ =>
             let E := fresh "E" in
             destruct r eqn:E; cbn [bindR] in H; [|discriminate H]
         end.
  destruct (premat e1 e2 fk4) as [[r0 r1] r2]. injection H as <- <- <-.
  repeat match goal with
         | H : assign_row _ _ = Ok _ |- _ => apply assign_row_length in H
         end.
  unfold dot_row. rewrite !map3_length by congruence. auto.
Qed.

(** X1.  Whatever the shape of its inputs, a call of [precess] that
    returns hands back two arrays of one length: the smaller of the two
    input lengths, and one for a pair of floats. *)
Theorem precess_output_shape (ra dec : ndarray F) (e1 e2 : F)
    (fk4 : option bool) (radian : bool) (ra' dec' : ndarray F) :
  precess premat ra dec e1 e2 fk4 radian = Ok (ra', dec') ->
  exists lr ld,
    ra' = Arr lr /\ dec' = Arr ld /\
    length lr = match np_len ra, np_len dec with
                | Ok n, Ok m => Nat.min n m
                | _, _ => 1
                end /\
    length ld = length lr.
Proof.
  unfold precess. intros H.
  destruct (rotated premat ra dec e1 e2 fk4 radian)
    as [[[x2_0 x2_1] x2_2]|e] eqn:Er; [|discriminate H].
  apply rotated_lengths in Er. destruct Er as (L0 & L1 & L2).
  cbn [bindR] in H.
  destruct radian; cbn [negb] in H; injection H as <- <-;
    eexists _, _; (split; [reflexivity|]); (split; [reflexivity|]);
    rewrite ?length_map, map2_length by congruence;
    split; congruence.
Qed.

(** X2.  In degrees two vectors are accepted exactly when they have one
    length, or when one is empty and the other has one element; every
    other pair of lengths ends in the [ValueError] of a broadcast. *)
Theorem precess_degrees_lengths (ra dec : list F) (e1 e2 : F)
    (fk4 : option bool) :
  is_ok (precess premat (Arr ra) (Arr dec) e1 e2 fk4 false)
    = (length ra =? length dec)
      || ((length ra =? 0) && (length dec =? 1))
      || ((length ra =? 1) && (length dec =? 0)) /\
  (forall e, precess premat (Arr ra) (Arr dec) e1 e2 fk4 false = Raise e ->
             e = ValueError).
Proof.
  unfold precess, rotated. cbn [np_len negb nd_map bindR].
  set (n := length ra). set (m := length dec).
  set (cd := map fcos (map (fun v => fmul v deg_to_rad) dec)).
  set (sd := map fsin (map (fun v => fmul v deg_to_rad) dec)).
  set (cr := map fcos (map (fun v => fmul v deg_to_rad) ra)).
  set (sr := map fsin (map (fun v => fmul v deg_to_rad) ra)).
  assert (Lcd : length cd = m) by (unfold cd; now rewrite !length_map).
  assert (Lsd : length sd = m) by (unfold sd; now rewrite !length_map).
  assert (Lcr : length cr = n) by (unfold cr; now rewrite !length_map).
  assert (Lsr : length sr = n) by (unfold sr; now rewrite !length_map).
  pose proof (broadcast_shape fmul cd cr) as B0.
  pose proof (broadcast_shape fmul cd sr) as B1.
  pose proof (assign_row_shape (Nat.min n m) sd) as B2.
  rewrite Lcd, Lcr in B0. rewrite Lcd, Lsr in B1. rewrite Lsd in B2.
  destruct (bshape m n) as [s|] eqn:Bs.
  - destruct B0 as (l0 & -> & L0), B1 as (l1 & -> & L1). cbn [bindR].
    pose proof (assign_row_shape (Nat.min n m) l0) as A0.
    pose proof (assign_row_shape (Nat.min n m) l1) as A1.
    rewrite L0 in A0. rewrite L1 in A1.
    destruct ((s =? Nat.min n m) || (s =? 1)) eqn:Cs.
    + destruct A0 as (x0 & -> & _), A1 as (x1 & -> & _). cbn [bindR].
      destruct ((m =? Nat.min n m) || (m =? 1)) eqn:Cm.
      * destruct B2 as (x2 & -> & _). cbn [bindR].
        destruct (premat e1 e2 fk4) as [[r0 r1] r2]. cbn [bindR is_ok].
        split; [|discriminate].
        unfold bshape in Bs.
        repeat match goal with
               | H : context [?a =? ?b] |- _ => destruct (Nat.eqb_spec a b)
               | |- context [?a =? ?b] => destruct (Nat.eqb_spec a b)
               end; simpl in *; try discriminate; try reflexivity;
          try injection Bs as Bs; lia.
      * rewrite B2. cbn [bindR is_ok]. split; [|now intros e [= <-]].
        unfold bshape in Bs.
        repeat match goal with
               | H : context [?a =? ?b] |- _ => destruct (Nat.eqb_spec a b)
               | |- context [?a =? ?b] => destruct (Nat.eqb_spec a b)
               end; simpl in *; try discriminate; try reflexivity;
          try injection Bs as Bs; lia.
    + rewrite A0. cbn [bindR is_ok]. split; [|now intros e [= <-]].
      unfold bshape in Bs.
      repeat match goal with
             | H : context [?a =? ?b] |- _ => destruct (Nat.eqb_spec a b)
             | |- context [?a =? ?b] => destruct (Nat.eqb_spec a b)
             end; simpl in *; try discriminate; try reflexivity;
        try injection Bs as Bs; lia.
  - rewrite B0. cbn [bindR is_ok]. split; [|now intros e [= <-]].
    unfold bshape in Bs.
    repeat match goal with
           | H : context [?a =? ?b] |- _ => destruct (Nat.eqb_spec a b)
           | |- context [?a =? ?b] => destruct (Nat.eqb_spec a b)
           end; simpl in *; try discriminate; try reflexivity; lia.
Qed.

(** X3.  With [radian=True] a call is the call on the two floats that
    [float()] makes of its inputs, arrays of one element included; when
    [float()] refuses either input the call ends in its [TypeError]. *)
Theorem precess_radian_through_float (ra dec : ndarray F) (e1 e2 : F)
    (fk4 : option bool) :
  precess premat ra dec e1 e2 fk4 true =
    match py_float ra, py_float dec with
    | Ok a, Ok d => precess premat (Scalar a) (Scalar d) e1 e2 fk4 true
    | _, _ => Raise TypeError
    end.
Proof.
  destruct ra as [a|[|a [|a' ra]]], dec as [d|[|d [|d' dec]]];
    reflexivity.
Qed.

(** X4.  On a pair of floats the call in degrees is the call in radians
    on the converted pair, with the result converted back and the right
    ascension brought up by 360 when negative. *)
Theorem precess_degrees_from_radians (ra dec e1 e2 : F) (fk4 : option bool) :
  exists r d,
    precess premat (Scalar (fmul ra (fdiv fpi (flit 180))))
      (Scalar (fmul dec (fdiv fpi (flit 180)))) e1 e2 fk4 true
      = Ok (Arr [r], Arr [d]) /\
    precess premat (Scalar ra) (Scalar dec) e1 e2 fk4 false
      = Ok (Arr [fadd (fdiv r (fdiv fpi (flit 180)))
                   (fmul (of_bool (fltb (fdiv r (fdiv fpi (flit 180))) (flit 0)))
                      (flit 360))],
            Arr [fdiv d (fdiv fpi (flit 180))]).
Proof.
  rewrite precess_radian_scalar, precess_degrees_scalar.
  unfold precess_point, deg_to_rad.
  destruct (rotate _ _) as [[x2_0 x2_1] x2_2].
  eexists _, _. split; reflexivity.
Qed.

(** X5.  In degrees a call on vectors of one length gives, at each index,
    what the call on that one sample gives. *)
Theorem precess_degrees_batch (ra dec lr ld : list F) (e1 e2 : F)
    (fk4 : option bool) (j : nat) (x0 : F) :
  length ra = length dec ->
  precess premat (Arr ra) (Arr dec) e1 e2 fk4 false = Ok (Arr lr, Arr ld) ->
  j < length ra ->
  precess premat (Scalar (nth j ra x0)) (Scalar (nth j dec x0)) e1 e2 fk4 false
    = Ok (Arr [nth j lr x0], Arr [nth j ld x0]).
Proof.
  intros Hlen H Hj.
  rewrite precess_degrees_elementwise in H by exact Hlen.
  injection H as <- <-. rewrite precess_degrees_scalar.
  assert (Hnth : forall (g : F -> F -> F) (l1 l2 : list F) (k : nat),
             length l1 = length l2 -> k < length l1 ->
             nth k (map2 g l1 l2) x0 = g (nth k l1 x0) (nth k l2 x0)).
  { intros g l1. induction l1 as [|a l1 IH]; intros [|b l2] k E Hk;
      simpl in *; try lia.
    destruct k as [|k]; [reflexivity|]. apply IH; lia. }
  now rewrite !Hnth.
Qed.

End PrecessShapes.

(** ** precess in exact arithmetic: the ranges of the result *)

Section PrecessRanges.
Local Open Scope R_scope.
Variable premat : npreal -> npreal -> option bool -> mat3 npreal.

Lemma Forall_map2_fin (P : npreal -> Prop) (g : npreal -> npreal -> npreal)
    (ra dec : list R) :
  (forall a d, P (g (Fin a) (Fin d))) ->
  Forall P (map2 g (map Fin ra) (map Fin dec)).
Proof.
  intros Hg. revert dec; induction ra as [|a ra IH]; intros [|d dec];
    cbn [map map2]; constructor; auto.
Qed.

(** The declination of one sample: invalid, or between the poles. *)
Lemma precess_point_dec_range (a b c d e f g h i ra dec : R) :
  let v := snd (precess_point
                  ((Fin a, Fin b, Fin c), (Fin d, Fin e, Fin f),
                   (Fin g, Fin h, Fin i)) (Fin ra) (Fin dec)) in
  v = NaN \/ exists x, v = Fin x /\ -90 <= x <= 90.
Proof.
  pose proof PI_RGT_0 as Hpi.
  rewrite precess_point_fin. cbv zeta. cbn [snd].
  match goal with |- context [np_arcsin (Fin ?w)] => set (z := w) end.
  destruct (Rle_dec (-1) z) as [H1|H1];
    [destruct (Rle_dec z 1) as [H2|H2]|].
  - right. rewrite np_arcsin_in, np_div_fin by lra.
    eexists; split; [reflexivity|].
    pose proof (asin_bound z) as Hb.
    set (q := asin z / (PI / 180)).
    assert (Eq : asin z = q * (PI / 180)) by (unfold q; field; lra).
    split; nra.
  - left. rewrite np_arcsin_out by lra. reflexivity.
  - left. rewrite np_arcsin_out by lra. reflexivity.
Qed.

(** X6.  In degrees, for numbers as inputs and a matrix of numbers, every
    right ascension returned lies in [0, 360), and every declination is
    the invalid value or lies in [-90, 90]. *)
Theorem precess_degrees_ranges (e1 e2 : npreal) (fk4 : option bool)
    (a b c d e f g h i : R) (ra dec : list R) :
  premat e1 e2 fk4 =
    ((Fin a, Fin b, Fin c), (Fin d, Fin e, Fin f), (Fin g, Fin h, Fin i)) ->
  length ra = length dec ->
  exists lr ld,
    precess premat (Arr (map Fin ra)) (Arr (map Fin dec)) e1 e2 fk4 false
      = Ok (Arr lr, Arr ld) /\
    Forall (fun v => exists x, v = Fin x /\ 0 <= x < 360) lr /\
    Forall (fun v => v = NaN \/ exists x, v = Fin x /\ -90 <= x <= 90) ld.
Proof.
  intros Hm Hlen.
  rewrite precess_degrees_elementwise by (now rewrite !length_map).
  rewrite Hm. eexists _, _. split; [reflexivity|]. split.
  - apply Forall_map2_fin. intros ra0 dec0. apply precess_point_ra_range.
  - apply Forall_map2_fin. intros ra0 dec0. apply precess_point_dec_range.
Qed.

(** X7.  In radians, for a pair of numbers and a matrix of numbers, the
    right ascension returned is the value of [arctan2] itself: a number in
    (-pi, pi]. *)
Theorem precess_radian_ra_range (e1 e2 : npreal) (fk4 : option bool)
    (a b c d e f g h i : R) (ra dec : R) :
  premat e1 e2 fk4 =
    ((Fin a, Fin b, Fin c), (Fin d, Fin e, Fin f), (Fin g, Fin h, Fin i)) ->
  exists r dec',
    precess premat (Scalar (Fin ra)) (Scalar (Fin dec)) e1 e2 fk4 true
      = Ok (Arr [Fin r], Arr [dec']) /\
    - PI < r <= PI.
Proof.
  intros Hm. rewrite precess_radian_scalar, Hm.
  cbn [rotate dircos dot3 vec3_mul vec3_list np_sum fold_left
       fmul fadd fcos fsin farctan2 npreal_float64 lift1 lift2].
  eexists _, _. split; [reflexivity|]. apply atan2_range.
Qed.

(** The direction cosines of a sample have length one. *)
Lemma dircos_unit (th de : R) :
  (cos de * cos th) ^ 2 + (cos de * sin th) ^ 2 + sin de ^ 2 = 1.
Proof.
  pose proof (sin2_cos2 th) as Ht. pose proof (sin2_cos2 de) as Hd.
  unfold Rsqr in Ht, Hd. nra.
Qed.

(** A row of length at most one takes a unit vector into [-1, 1]. *)
Lemma row_times_unit (g h i x y z : R) :
  g ^ 2 + h ^ 2 + i ^ 2 <= 1 -> x ^ 2 + y ^ 2 + z ^ 2 = 1 ->
  -1 <= g * x + h * y + i * z <= 1.
Proof.
  intros Hr Hu.
  assert (Hl : (g * x + h * y + i * z) ^ 2
               + ((g * y - h * x) ^ 2 + (g * z - i * x) ^ 2 + (h * z - i * y) ^ 2)
               = (g ^ 2 + h ^ 2 + i ^ 2) * (x ^ 2 + y ^ 2 + z ^ 2)) by ring.
  rewrite Hu, Rmult_1_r in Hl.
  assert (H2 : (g * x + h * y + i * z) ^ 2 <= 1).
  { pose proof (pow2_ge_0 (g * y - h * x)).
    pose proof (pow2_ge_0 (g * z - i * x)).
    pose proof (pow2_ge_0 (h * z - i * y)). lra. }
  split; nra.
Qed.

(** X8.  When the third row of the precession matrix has length at most
    one, as a rotation's has, [arcsin] is never taken outside its domain:
    in degrees every declination returned is a number in [-90, 90]. *)
Theorem precess_degrees_dec_valid (e1 e2 : npreal) (fk4 : option bool)
    (a b c d e f g h i : R) (ra dec : list R) :
  premat e1 e2 fk4 =
    ((Fin a, Fin b, Fin c), (Fin d, Fin e, Fin f), (Fin g, Fin h, Fin i)) ->
  g ^ 2 + h ^ 2 + i ^ 2 <= 1 ->
  length ra = length dec ->
  exists lr ld,
    precess premat (Arr (map Fin ra)) (Arr (map Fin dec)) e1 e2 fk4 false
      = Ok (Arr lr, Arr ld) /\
    Forall (fun v => exists x, v = Fin x /\ -90 <= x <= 90) ld.
Proof.
  intros Hm Hrow Hlen. pose proof PI_RGT_0 as Hpi.
  rewrite precess_degrees_elementwise by (now rewrite !length_map).
  rewrite Hm. eexists _, _. split; [reflexivity|].
  apply Forall_map2_fin. intros ra0 dec0.
  rewrite precess_point_fin. cbv zeta. cbn [snd].
  match goal with |- context [np_arcsin (Fin ?w)] => set (z := w) end.
  assert (Hz : -1 <= z <= 1)
    by (apply row_times_unit; [exact Hrow|apply dircos_unit]).
  rewrite np_arcsin_in, np_div_fin by lra.
  eexists; split; [reflexivity|].
  pose proof (asin_bound z) as Hb.
  set (q := asin z / (PI / 180)).
  assert (Eq : asin z = q * (PI / 180)) by (unfold q; field; lra).
  split; nra.
Qed.

End PrecessRanges.

(** ** precess in exact arithmetic: there and back *)

Section RoundTrip.
Local Open Scope R_scope.

Lemma cos_minus_PI (x : R) : cos (x - PI) = - cos x.
Proof.
  replace (x - PI) with ((x + PI) - 2 * PI) by ring.
  now rewrite cos_full_turn, neg_cos.
Qed.

Lemma sin_minus_PI (x : R) : sin (x - PI) = - sin x.
Proof.
  replace (x - PI) with ((x + PI) - 2 * PI) by ring.
  now rewrite sin_full_turn, neg_sin.
Qed.

(** [atan2] gives back the direction of a point of the plane. *)
Lemma atan2_cos_sin (X Y : R) :
  sqrt (X * X + Y * Y) * cos (atan2 Y X) = X /\
  sqrt (X * X + Y * Y) * sin (atan2 Y X) = Y.
Proof.
  pose proof PI_RGT_0 as Hpi.
  destruct (Req_dec X 0) as [->|HX].
  - replace (0 * 0 + Y * Y) with (Y * Y) by ring.
    unfold atan2.
    destruct (Rlt_dec 0 0) as [H|_]; [lra|].
    destruct (Rlt_dec 0 Y) as [HY|HY].
    + rewrite sqrt_square, cos_PI2, sin_PI2 by lra. lra.
    + destruct (Rlt_dec Y 0) as [HY'|HY'].
      * replace (Y * Y) with ((- Y) * (- Y)) by ring.
        rewrite sqrt_square, cos_neg, sin_neg, cos_PI2, sin_PI2 by lra. lra.
      * assert (Y = 0) as -> by lra.
        rewrite Rmult_0_l, sqrt_0, cos_0, sin_0. lra.
  - set (t := Y / X).
    set (s := sqrt (1 + t²)).
    assert (Hs2 : s * s = 1 + t²).
    { unfold s. apply sqrt_sqrt. pose proof (Rle_0_sqr t). lra. }
    assert (Hs : 0 < s).
    { unfold s. apply sqrt_lt_R0. pose proof (Rle_0_sqr t). lra. }
    assert (Ht : X * t = Y) by (unfold t; field; exact HX).
    assert (Hrho : sqrt (X * X + Y * Y) = Rabs X * s).
    { apply sqrt_lem_1.
      - nra.
      - pose proof (Rabs_pos X). nra.
      - replace (Rabs X * s * (Rabs X * s))
          with ((Rabs X * Rabs X) * (s * s)) by ring.
        rewrite Hs2. replace (Rabs X * Rabs X) with (X * X).
        + unfold Rsqr. rewrite <- Ht. ring.
        + unfold Rabs. destruct (Rcase_abs X); ring. }
    rewrite Hrho. unfold atan2. fold t.
    destruct (Rlt_dec 0 X) as [HX1|HX1].
    + rewrite Rabs_right, cos_atan, sin_atan by lra. fold s.
      split; field_simplify; lra.
    + destruct (Rlt_dec X 0) as [HX2|HX2]; [|lra].
      rewrite Rabs_left by lra.
      destruct (Rle_dec 0 Y) as [HY|HY].
      * rewrite neg_cos, neg_sin, cos_atan, sin_atan. fold s.
        split; field_simplify; lra.
      * rewrite cos_minus_PI, sin_minus_PI, cos_atan, sin_atan. fold s.
        split; field_simplify; lra.
Qed.

(** The direction cosines of the coordinates [precess] recovers from a
    unit vector are that vector. *)
Lemma spherical_then_dircos (X Y Z : R) :
  X * X + Y * Y + Z * Z = 1 ->
  let ra1 := (let v := atan2 Y X / (PI / 180) in
              if Rlt_dec v 0 then v + 360 else v) in
  let dec1 := asin Z / (PI / 180) in
  cos (dec1 * (PI / 180)) * cos (ra1 * (PI / 180)) = X /\
  cos (dec1 * (PI / 180)) * sin (ra1 * (PI / 180)) = Y /\
  sin (dec1 * (PI / 180)) = Z.
Proof.
  intros Hu ra1 dec1. pose proof PI_RGT_0 as Hpi.
  assert (HZ : -1 <= Z <= 1) by (split; nra).
  assert (Ed : dec1 * (PI / 180) = asin Z) by (unfold dec1; field; lra).
  rewrite Ed, cos_asin, sin_asin by exact HZ.
  replace (1 - Z²) with (X * X + Y * Y) by (unfold Rsqr; lra).
  destruct (atan2_cos_sin X Y) as [Hc Hs].
  assert (Er : cos (ra1 * (PI / 180)) = cos (atan2 Y X)
               /\ sin (ra1 * (PI / 180)) = sin (atan2 Y X)).
  { unfold ra1. cbv zeta.
    destruct (Rlt_dec (atan2 Y X / (PI / 180)) 0).
    - replace ((atan2 Y X / (PI / 180) + 360) * (PI / 180))
        with (atan2 Y X + 2 * PI) by (field; lra).
      rewrite <- (cos_full_turn (atan2 Y X + 2 * PI)).
      rewrite <- (sin_full_turn (atan2 Y X + 2 * PI)).
      split; f_equal; ring.
    - replace (atan2 Y X / (PI / 180) * (PI / 180)) with (atan2 Y X)
        by (field; lra).
      split; reflexivity. }
  destruct Er as [-> ->]. auto.
Qed.

(** What [precess_point_identity] says of the numbers. *)
Lemma spherical_of_dircos (ra dec : R) :
  0 <= ra < 360 -> -90 < dec < 90 ->
  let th := ra * (PI / 180) in
  let de := dec * (PI / 180) in
  (let v := atan2 (cos de * sin th) (cos de * cos th) / (PI / 180) in
   if Rlt_dec v 0 then v + 360 else v) = ra /\
  np_div (np_arcsin (Fin (sin de))) (Fin (PI / 180)) = Fin dec.
Proof.
  intros Hra Hdec th de.
  pose proof (precess_point_identity Hra Hdec) as H.
  unfold identity3 in H. rewrite precess_point_fin in H. cbv zeta in H.
  fold th de in H.
  replace (0 * (cos de * cos th) + 1 * (cos de * sin th) + 0 * sin de)
    with (cos de * sin th) in H by ring.
  replace (1 * (cos de * cos th) + 0 * (cos de * sin th) + 0 * sin de)
    with (cos de * cos th) in H by ring.
  replace (0 * (cos de * cos th) + 0 * (cos de * sin th) + 1 * sin de)
    with (sin de) in H by ring.
  injection H as H1 H2. split; assumption.
Qed.

(** One sample there and back: by an orthogonal matrix, then by its
    transpose. *)
Lemma precess_point_round_trip (a b c d e f g h i ra dec : R) :
  a * a + d * d + g * g = 1 -> b * b + e * e + h * h = 1 ->
  c * c + f * f + i * i = 1 ->
  a * b + d * e + g * h = 0 -> a * c + d * f + g * i = 0 ->
  b * c + e * f + h * i = 0 ->
  0 <= ra < 360 -> -90 < dec < 90 ->
  let p := precess_point
             ((Fin a, Fin b, Fin c), (Fin d, Fin e, Fin f), (Fin g, Fin h, Fin i))
             (Fin ra) (Fin dec) in
  precess_point
    ((Fin a, Fin d, Fin g), (Fin b, Fin e, Fin h), (Fin c, Fin f, Fin i))
    (fst p) (snd p) = (Fin ra, Fin dec).
Proof.
  intros H1 H2 H3 H4 H5 H6 Hra Hdec p. pose proof PI_RGT_0 as Hpi.
  unfold p. rewrite precess_point_fin. cbv zeta. cbn [fst snd].
  set (th := ra * (PI / 180)). set (de := dec * (PI / 180)).
  set (x := cos de * cos th). set (y := cos de * sin th). set (z := sin de).
  assert (Hu : x * x + y * y + z * z = 1).
  { pose proof (dircos_unit th de) as Hd. fold x y z in Hd. lra. }
  set (X := a * x + b * y + c * z).
  set (Y := d * x + e * y + f * z).
  set (Z := g * x + h * y + i * z).
  assert (HU : X * X + Y * Y + Z * Z = 1).
  { replace (X * X + Y * Y + Z * Z)
      with ((a * a + d * d + g * g) * (x * x) + (b * b + e * e + h * h) * (y * y)
            + (c * c + f * f + i * i) * (z * z)
            + 2 * (a * b + d * e + g * h) * (x * y)
            + 2 * (a * c + d * f + g * i) * (x * z)
            + 2 * (b * c + e * f + h * i) * (y * z))
      by (unfold X, Y, Z; ring).
    rewrite H1, H2, H3, H4, H5, H6. lra. }
  assert (HZ : -1 <= Z <= 1) by (split; nra).
  rewrite np_arcsin_in, np_div_fin by lra.
  rewrite precess_point_fin. cbv zeta.
  destruct (spherical_then_dircos HU) as (E1 & E2 & E3).
  cbv zeta in E1, E2, E3. rewrite E1, E2, E3.
  replace (a * X + d * Y + g * Z) with x.
  2:{ replace (a * X + d * Y + g * Z)
        with ((a * a + d * d + g * g) * x + (a * b + d * e + g * h) * y
              + (a * c + d * f + g * i) * z) by (unfold X, Y, Z; ring).
      rewrite H1, H4, H5. ring. }
  replace (b * X + e * Y + h * Z) with y.
  2:{ replace (b * X + e * Y + h * Z)
        with ((a * b + d * e + g * h) * x + (b * b + e * e + h * h) * y
              + (b * c + e * f + h * i) * z) by (unfold X, Y, Z; ring).
      rewrite H2, H4, H6. ring. }
  replace (c * X + f * Y + i * Z) with z.
  2:{ replace (c * X + f * Y + i * Z)
        with ((a * c + d * f + g * i) * x + (b * c + e * f + h * i) * y
              + (c * c + f * f + i * i) * z) by (unfold X, Y, Z; ring).
      rewrite H3, H5, H6. ring. }
  destruct (spherical_of_dircos Hra Hdec) as [Era Edec].
  cbv zeta in Era, Edec. fold th de in Era, Edec. fold x y z in Era, Edec.
  rewrite Era, Edec. reflexivity.
Qed.

Variable premat : npreal -> npreal -> option bool -> mat3 npreal.

(** X9.  There and back.  When the matrix from [e1] to [e2] is orthogonal
    and the matrix from [e2] to [e1] is its transpose, precessing vectors
    of coordinates in degrees from [e1] to [e2] and the result back from
    [e2] to [e1] returns the coordinates one started from: for right
    ascensions in [0, 360) and declinations strictly between the poles. *)
Theorem precess_round_trip (e1 e2 : npreal) (fk4 : option bool)
    (a b c d e f g h i : R) (ra dec : list R) :
  premat e1 e2 fk4 =
    ((Fin a, Fin b, Fin c), (Fin d, Fin e, Fin f), (Fin g, Fin h, Fin i)) ->
  premat e2 e1 fk4 =
    ((Fin a, Fin d, Fin g), (Fin b, Fin e, Fin h), (Fin c, Fin f, Fin i)) ->
  a * a + d * d + g * g = 1 -> b * b + e * e + h * h = 1 ->
  c * c + f * f + i * i = 1 ->
  a * b + d * e + g * h = 0 -> a * c + d * f + g * i = 0 ->
  b * c + e * f + h * i = 0 ->
  length ra = length dec ->
  Forall (fun x => 0 <= x < 360) ra ->
  Forall (fun x => -90 < x < 90) dec ->
  exists ra1 dec1,
    precess premat (Arr (map Fin ra)) (Arr (map Fin dec)) e1 e2 fk4 false
      = Ok (Arr ra1, Arr dec1) /\
    precess premat (Arr ra1) (Arr dec1) e2 e1 fk4 false
      = Ok (Arr (map Fin ra), Arr (map Fin dec)).
Proof.
  intros HA HB H1 H2 H3 H4 H5 H6 Hlen Hra Hdec.
  rewrite precess_degrees_elementwise by (now rewrite !length_map).
  rewrite HA. eexists _, _. split; [reflexivity|].
  rewrite precess_degrees_elementwise
    by (rewrite !map2_length; rewrite !length_map; congruence).
  rewrite HB. do 2 f_equal; f_equal.
  - revert dec Hlen Hdec; induction Hra as [|r ra Hr Hra IH];
      intros [|d0 dec] Hlen Hdec; try discriminate; [reflexivity|].
    inversion Hdec; subst. cbn [map map2].
    rewrite (precess_point_round_trip H1 H2 H3 H4 H5 H6 Hr) by assumption.
    cbn [fst]. f_equal. apply IH; [now injection Hlen|assumption].
  - revert dec Hlen Hdec; induction Hra as [|r ra Hr Hra IH];
      intros [|d0 dec] Hlen Hdec; try discriminate; [reflexivity|].
    inversion Hdec; subst. cbn [map map2].
    rewrite (precess_point_round_trip H1 H2 H3 H4 H5 H6 Hr) by assumption.
    cbn [snd]. f_equal. apply IH; [now injection Hlen|assumption].
Qed.

End RoundTrip.

(** ** ugdoppler: order of events, failures, units and samples *)

Lemma nth_map_lt {A B} (g : A -> B) (l : list A) (j : nat) (x : A) (y : B) :
  j < length l -> nth j (map g l) y = g (nth j l x).
Proof.
  revert j; induction l as [|a l IH]; intros [|j] Hj; simpl in *;
    try lia; auto. apply IH. lia.
Qed.

Lemma nth_map2_lt {A B C} (g : A -> B -> C) (l1 : list A) (l2 : list B)
    (j : nat) (x : A) (y : B) (z : C) :
  length l1 = length l2 -> j < length l1 ->
  nth j (map2 g l1 l2) z = g (nth j l1 x) (nth j l2 y).
Proof.
  revert l2 j; induction l1 as [|a l1 IH]; intros [|b l2] [|j] E Hj;
    simpl in *; try lia; auto. apply IH; lia.
Qed.

Section DopplerMore.
Context {F : Type} {FL : Float64 F}.
Variable premat : F -> F -> option bool -> mat3 F.
Variable baryvel : F -> F -> vec3 F * vec3 F.
Variable getLST : F -> F -> F.

(** X10.  A call that returns has done, in this order: one call of
    [baryvel] per sample, one call of [precess], the print of the notice
    when [nlat] and [wlong] are not both truthy, one call of [getLST], and
    the stop in the debugger; and nothing else. *)
Theorem ugdoppler_trace_order (ra dec julday : ndarray F)
    (nlat wlong : option F) (light : bool) (o l : option (ndarray F))
    (t : list event) (rows : list (list F)) :
  ugdoppler premat baryvel getLST ra dec julday nlat wlong light o l
    = (t, Ok rows) ->
  t = repeat (EvCall Cbaryvel)
        (match np_len ra with Ok n => n | Raise _ => 1 end)
      ++ [EvCall Cprecess]
      ++ (if truthy nlat && truthy wlong then []
          else [EvPrint "I am defaulting to Campbell Hall coordinates"])
      ++ [EvCall CgetLST; EvBreakpoint].
Proof.
  intros H. apply ugdoppler_inv in H. destruct H as (fr & E & _).
  apply ugdoppler_locals_inv in E.
  destruct E as (v0 & v1 & xx0 & xx1 & xx2 & th & helio & bary & vv & tobs
                 & pos & d0 & tm & pv & rows' & _ & _ & _ & _ & _ & Eloop & _
                 & Eobs & _ & _ & _ & _ & -> & _).
  apply orbit_loop_trace in Eloop. rewrite length_seq in Eloop. subst th.
  rewrite observer_run in Eobs.
  destruct (truthy nlat && truthy wlong); injection Eobs as <- _; reflexivity.
Qed.

Lemma orbit_loop_short_trace (jd : list F) (xx : list F * list F * list F)
    (start n : nat) :
  start <= length jd -> length jd < start + n ->
  orbit_loop baryvel (seq start n) (Arr jd) xx =
    (repeat (EvCall Cbaryvel) (length jd - start), Raise IndexError).
Proof.
  revert start; induction n as [|n IH]; intros start Hle Hlt; [lia|].
  cbn [orbit_loop seq getitem].
  destruct (nth_error jd start) as [x|] eqn:Ex.
  - assert (Hs : start < length jd) by (apply nth_error_Some; congruence).
    rewrite bindM_lift_ok, bindM_emit.
    destruct (baryvel x (flit 2000)) as [vvorbit velb].
    rewrite IH by lia. rewrite bindM_raise. cbn [trace outcome fst snd].
    replace (length jd - start) with (S (length jd - S start)) by lia.
    reflexivity.
  - apply nth_error_None in Ex.
    replace (length jd - start) with 0 by lia. reflexivity.
Qed.

(** X11.  With fewer Julian days than right ascensions (and a Dec of the
    length of RA, or of length one) the call ends in the [IndexError] of
    [julday[NR]], having called [baryvel] once for each Julian day there
    is and nothing else: neither [precess] nor [getLST], no print, no
    debugger. *)
Theorem ugdoppler_short_julday (ra dec jd : list F) (nlat wlong : option F)
    (light : bool) (o l : option (ndarray F)) :
  length dec = length ra \/ length dec = 1 ->
  length jd < length ra ->
  ugdoppler premat baryvel getLST (Arr ra) (Arr dec) (Arr jd)
    nlat wlong light o l
  = (repeat (EvCall Cbaryvel) (length jd), Raise IndexError).
Proof.
  intros Hm Hk. unfold ugdoppler, ugdoppler_locals. cbn [np_len nd_map].
  set (n := length ra) in *.
  set (decsource := map (fun v => fmul v dtor) dec).
  set (rasource := map (fun v => fmul (fmul v (flit 15)) dtor) ra).
  pose proof (broadcast_shape fmul (map fcos decsource) (map fcos rasource)) as B0.
  pose proof (broadcast_shape fmul (map fcos decsource) (map fsin rasource)) as B1.
  unfold decsource, rasource in B0, B1. rewrite !length_map in B0, B1.
  fold n decsource rasource in B0, B1.
  rewrite (bshape_stretch Hm) in B0, B1.
  destruct B0 as (l0 & -> & L0), B1 as (l1 & -> & L1).
  pose proof (assign_row_shape n (map fsin decsource)) as B2.
  unfold decsource in B2. rewrite !length_map in B2. fold decsource in B2.
  replace ((length dec =? n) || (length dec =? 1)) with true in B2
    by (symmetry; rewrite orb_true_iff, !Nat.eqb_eq; exact Hm).
  destruct B2 as (l2 & -> & L2).
  rewrite bindM_lift_ok, (assign_row_fit l0 L0), !bindM_lift_ok,
    (assign_row_fit l1 L1), !bindM_lift_ok.
  rewrite orbit_loop_short_trace by lia.
  rewrite !bindM_raise. now rewrite Nat.sub_0_r.
Qed.

(** X12.  On a float for RA and a float for Dec the loop runs once and
    reads [julday[0]]: a float for the Julian day ends the call at once in
    a [TypeError], before any collaborator is called, and an array for
    the Julian day is accepted exactly when it has one element. *)
Theorem ugdoppler_float_inputs (ra dec : F) (julday : ndarray F)
    (nlat wlong : option F) (light : bool) (o l : option (ndarray F)) :
  match julday with
  | Scalar _ =>
      ugdoppler premat baryvel getLST (Scalar ra) (Scalar dec) julday
        nlat wlong light o l = ([], Raise TypeError)
  | Arr jd =>
      is_ok (outcome (ugdoppler premat baryvel getLST (Scalar ra) (Scalar dec)
                        julday nlat wlong light o l))
        = (length jd =? 1)
  end.
Proof.
  destruct julday as [j|jd]; [reflexivity|].
  destruct jd as [|j0 jd]; [reflexivity|].
  unfold ugdoppler, ugdoppler_locals.
  cbn [np_len nd_map broadcast assign_row repeat bindM liftM orbit_loop seq
       getitem nth_error emit retM app].
  destruct (baryvel j0 (flit 2000)) as [vvorbit velb].
  destruct (lsr_apex_run premat) as (r & d & _ & ->).
  rewrite observer_run.
  destruct jd as [|j1 jd];
    destruct (truthy nlat && truthy wlong); destruct light; reflexivity.
Qed.

(** X13.  The keyword [light] changes the unit and nothing else: the call
    with [light] set does what the call without it does, and returns its
    rows with every entry divided by 2.99792458e5. *)
Theorem ugdoppler_light_rescales (ra dec julday : ndarray F)
    (nlat wlong : option F) (o l : option (ndarray F))
    (t : list event) (rows : list (list F)) :
  ugdoppler premat baryvel getLST ra dec julday nlat wlong false o l
    = (t, Ok rows) ->
  ugdoppler premat baryvel getLST ra dec julday nlat wlong true o l
    = (t, Ok (map (map (fun v => fdiv v (flit 299792.458))) rows)).
Proof.
  intros H. apply ugdoppler_inv in H. destruct H as (fr & E & ->).
  apply ugdoppler_locals_inv in E.
  destruct E as (v0 & v1 & xx0 & xx1 & xx2 & th & helio & bary & vv & tobs
                 & pos & d0 & tm & pv & rows' & E0 & E1 & E2 & E3 & E4 & E5
                 & E6 & E7 & E8 & E9 & E10 & E11 & -> & ->).
  rewrite (ugdoppler_ok _ _ _ _ _ _ _ _ _ _ _
             (ugdoppler_locals_run premat baryvel getLST ra dec julday
                nlat wlong true o l E0 E1 E2 E3 E4 E5 E6 E7 E8 E9 E10 E11)).
  reflexivity.
Qed.

End DopplerMore.

(** ** ugdoppler: a batch, sample by sample *)

(** Lengths of lists built with [map], [map2] and [seq]. *)
Ltac len :=
  repeat first
    [ rewrite length_map
    | rewrite length_seq
    | rewrite map2_length by len ];
  first [assumption | congruence | lia].

Section DopplerSamples.
Context {F : Type} {FL : Float64 F}.
Variable premat : F -> F -> option bool -> mat3 F.
Variable baryvel : F -> F -> vec3 F * vec3 F.
Variable getLST : F -> F -> F.

Lemma combine_batch_n (n : nat) (p helio bary lsr : list F) :
  length p = n -> length helio = n -> length bary = n -> length lsr = n ->
  combine n (Arr p) helio bary lsr =
    Ok [map fneg p;
        map2 fsub (map fneg p) helio;
        map2 fsub (map fneg p) bary;
        map2 fsub (map2 fsub (map fneg p) bary) lsr].
Proof.
  intros <- Hh Hb Hl. now apply combine_batch.
Qed.

(** The column of [vtotal] at an index is a function of the sample at
    that index. *)
Lemma ugdoppler_locals_columns (ra dec jd : list F) (nlat wlong : option F)
    (light : bool) (o l : option (ndarray F)) (t : list event) (fr : frame F)
    (j : nat) (x0 : F) :
  length dec = length ra -> length jd = length ra ->
  ugdoppler_locals premat baryvel getLST (Arr ra) (Arr dec) (Arr jd)
    nlat wlong light o l = (t, Ok fr) ->
  j < length ra ->
  map (fun row => nth j row x0) (vtotal fr) =
    map (fun v => if light then fdiv v (flit 299792.458) else v)
      (sample_velocities baryvel getLST (vvlsr fr) (obspos_deg fr)
         (nth j ra x0) (nth j dec x0) (nth j jd x0)).
Proof.
  intros Hd Hj E Hlt. apply ugdoppler_locals_inv in E.
  cbn [np_len nd_map] in E.
  destruct E as (v0 & v1 & xx0 & xx1 & xx2 & th & helio & bary & vv & tobs
                 & pos & d0 & tm & pv & rows & E0 & E1 & E2 & E3 & E4 & Eloop
                 & _ & _ & E5 & E6 & E7 & E8 & _ & ->).
  rewrite broadcast_same_length in E0 by (rewrite !length_map; congruence).
  injection E0 as <-.
  rewrite assign_row_fit in E1
    by (rewrite map2_length; rewrite !length_map; congruence).
  injection E1 as <-.
  rewrite broadcast_same_length in E2 by (rewrite !length_map; congruence).
  injection E2 as <-.
  rewrite assign_row_fit in E3
    by (rewrite map2_length; rewrite !length_map; congruence).
  injection E3 as <-.
  rewrite assign_row_fit in E4 by (rewrite !length_map; congruence).
  injection E4 as <-.
  rewrite orbit_loop_ok in Eloop
    by (intros NR HNR; apply in_seq in HNR; lia).
  injection Eloop as _ <- <-.
  rewrite broadcast_same_length in E5 by (rewrite !length_map; congruence).
  injection E5 as <-.
  cbn [broadcast] in E6. injection E6 as <-. cbn [nd_map] in E7.
  rewrite broadcast_same_length in E7
    by (rewrite !length_map, map2_length; rewrite !length_map; congruence).
  injection E7 as <-.
  rewrite combine_batch_n in E8
    by (rewrite ?map2_length; rewrite ?length_map, ?map2_length, ?length_seq;
        rewrite ?length_map; congruence).
  injection E8 as <-.
  cbn [vtotal vvlsr obspos_deg]. unfold sample_velocities.
  destruct light; cbn [in_unit map];
    repeat (f_equal; try reflexivity);
    unfold helio_at, bary_at, column;
    repeat first
      [ rewrite (nth_map2_lt _ _ _ x0 x0) by len
      | rewrite (nth_map_lt _ _ x0) by len
      | rewrite (nth_map_lt _ (seq 0 (length ra)) 0) by len
      | rewrite seq_nth by len
      | rewrite (nth_indep jd (flit 0) x0) by len ];
    reflexivity.
Qed.

Lemma frame_apex_observer (ra dec julday : ndarray F) (nlat wlong : option F)
    (light : bool) (o l : option (ndarray F)) (t : list event) (fr : frame F) :
  ugdoppler_locals premat baryvel getLST ra dec julday nlat wlong light o l
    = (t, Ok fr) ->
  lsr_apex premat = ([EvCall Cprecess], Ok (vvlsr fr)) /\
  exists tobs, observer nlat wlong = (tobs, Ok (obspos_deg fr)).
Proof.
  intros E. apply ugdoppler_locals_inv in E.
  destruct E as (v0 & v1 & xx0 & xx1 & xx2 & th & helio & bary & vv & tobs
                 & pos & d0 & tm & pv & rows & _ & _ & _ & _ & _ & _ & Elsr
                 & Eobs & _ & _ & _ & _ & _ & ->).
  cbn [vvlsr obspos_deg]. eauto.
Qed.

Lemma rows_of_singletons (rows : list (list F)) (x0 : F) :
  Forall (fun row => length row = 1) rows ->
  rows = map (fun row => [nth 0 row x0]) rows.
Proof.
  induction 1 as [|row rows Hrow _ IH]; [reflexivity|].
  cbn [map]. rewrite <- IH. f_equal.
  destruct (length_one row Hrow) as [x ->]. reflexivity.
Qed.

(** X14.  No sample of a batch touches another: the column of the result
    at an index is, entry for entry, the result of the call on the sample
    at that index alone. *)
Theorem ugdoppler_batch_is_per_sample (ra dec jd : list F)
    (nlat wlong : option F) (light : bool) (o l : option (ndarray F))
    (t : list event) (rows : list (list F)) (j : nat) (x0 : F) :
  length dec = length ra -> length jd = length ra ->
  ugdoppler premat baryvel getLST (Arr ra) (Arr dec) (Arr jd)
    nlat wlong light o l = (t, Ok rows) ->
  j < length ra ->
  exists t1,
    ugdoppler premat baryvel getLST
      (Arr [nth j ra x0]) (Arr [nth j dec x0]) (Arr [nth j jd x0])
      nlat wlong light o l
    = (t1, Ok (map (fun row => [nth j row x0]) rows)).
Proof.
  intros Hd Hj H Hlt. apply ugdoppler_inv in H. destruct H as (fr & E & ->).
  pose proof (@ugdoppler_locals_columns ra dec jd nlat wlong light o l t fr
                j x0 Hd Hj E Hlt) as C.
  destruct (ugdoppler_locals_batch premat baryvel getLST
              [nth j ra x0] [nth j dec x0] [nth j jd x0]
              nlat wlong light o l eq_refl)
    as (t1 & fr1 & p1 & E1 & _ & _ & Lp & Lh & Lb & Ll & Ev1).
  assert (C1 := @ugdoppler_locals_columns
                  [nth j ra x0] [nth j dec x0] [nth j jd x0]
                  nlat wlong light o l t1 fr1 0 x0 eq_refl eq_refl E1
                  (Nat.lt_0_succ 0)).
  cbn [nth] in C1.
  destruct (frame_apex_observer _ _ _ _ _ _ _ _ E) as (Ea & tobs & Eo).
  destruct (frame_apex_observer _ _ _ _ _ _ _ _ E1) as (Ea1 & tobs1 & Eo1).
  assert (Evv : vvlsr fr1 = vvlsr fr) by congruence.
  assert (Epos : obspos_deg fr1 = obspos_deg fr) by congruence.
  rewrite Evv, Epos, <- C in C1.
  exists t1. rewrite (ugdoppler_ok _ _ _ _ _ _ _ _ _ _ _ E1).
  do 2 f_equal.
  rewrite (@rows_of_singletons (vtotal fr1) x0).
  - rewrite <- (map_map (fun row => nth 0 row x0) (fun v => [v])), C1.
    now rewrite map_map.
  - rewrite Ev1. cbn [length] in Lp, Lh, Lb, Ll.
    destruct light; cbn [in_unit map]; repeat constructor;
      rewrite ?length_map, ?map2_length; rewrite ?length_map, ?map2_length;
      rewrite ?length_map; congruence.
Qed.

End DopplerSamples.

(** ** ugdoppler: one declination for a batch *)

Lemma bindM_ext {A B} (m : M A) (k1 k2 : A -> M B) :
  (forall a, k1 a = k2 a) -> bindM m k1 = bindM m k2.
Proof.
  intros H. destruct m as [t [a|e]]; [|reflexivity].
  rewrite !bindM_ok. now rewrite H.
Qed.

Lemma map2_repeat_l {A B C} (f : A -> B -> C) (x : A) (l : list B) :
  map2 f (repeat x (length l)) l = map (f x) l.
Proof.
  induction l as [|b l IH]; [reflexivity|]. cbn [length repeat map2 map].
  now rewrite IH.
Qed.

Section DecBroadcast.
Context {F : Type} {FL : Float64 F}.
Variable premat : F -> F -> option bool -> mat3 F.
Variable baryvel : F -> F -> vec3 F * vec3 F.
Variable getLST : F -> F -> F.

Lemma broadcast_one_l (f : F -> F -> F) (x : F) (l : list F) :
  broadcast f (Arr [x]) (Arr l) = Ok (Arr (map (f x) l)).
Proof.
  cbn [broadcast length].
  destruct (Nat.eqb_spec 1 (length l)) as [E|NE]; [|reflexivity].
  symmetry in E. destruct (length_one l E) as [y ->]. reflexivity.
Qed.

Lemma broadcast_repeat_l (f : F -> F -> F) (x : F) (n : nat) (l : list F) :
  length l = n ->
  broadcast f (Arr (repeat x n)) (Arr l) = Ok (Arr (map (f x) l)).
Proof.
  intros <-. rewrite broadcast_same_length by apply repeat_length.
  now rewrite map2_repeat_l.
Qed.

Lemma assign_row_one (n : nat) (x : F) :
  assign_row n (Arr [x]) = Ok (repeat x n).
Proof.
  cbn [assign_row length].
  destruct (Nat.eqb_spec 1 n) as [<-|NE]; reflexivity.
Qed.

(** X15.  A declination array of one element stands for every sample:
    the call is, in what it returns, raises and logs, the call with that
    declination written out once per right ascension. *)
Theorem ugdoppler_dec_broadcast (ra : list F) (d : F) (julday : ndarray F)
    (nlat wlong : option F) (light : bool) (o l : option (ndarray F)) :
  ugdoppler premat baryvel getLST (Arr ra) (Arr [d]) julday
    nlat wlong light o l =
  ugdoppler premat baryvel getLST (Arr ra) (Arr (repeat d (length ra))) julday
    nlat wlong light o l.
Proof.
  destruct (Nat.eq_dec (length ra) 1) as [E1|N1]; [now rewrite E1|].
  unfold ugdoppler. f_equal. unfold ugdoppler_locals.
  cbn [np_len nd_map map]. rewrite !map_repeat.
  set (n := length ra) in *.
  set (rasource := map (fun v => fmul (fmul v (flit 15)) dtor) ra).
  rewrite !broadcast_one_l.
  rewrite !broadcast_repeat_l by (unfold rasource; now rewrite !length_map).
  rewrite assign_row_one, (assign_row_fit _ (repeat_length _ n)).
  apply bindM_ext; intros v0. apply bindM_ext; intros xx0.
  apply bindM_ext; intros v1. apply bindM_ext; intros xx1.
  apply bindM_ext; intros xx2. apply bindM_ext; intros [helio bary].
  apply bindM_ext; intros vv. apply bindM_ext; intros pos.
  apply bindM_ext; intros u.
  destruct (broadcast fsub
              (nd_map (fun jd => getLST jd (fneg (snd pos))) julday) (Arr ra))
    as [d0|e] eqn:Ed; [|reflexivity].
  rewrite !bindM_lift_ok. cbn [broadcast]. rewrite !bindM_lift_ok, map_repeat.
  assert (Hd0 : exists ld, d0 = Arr ld /\ length ld = n).
  { destruct julday as [jd0|jd]; cbn [nd_map broadcast] in Ed.
    - injection Ed as <-. eexists; split; [reflexivity|]. apply length_map.
    - apply broadcast_Arr_inv in Ed. destruct Ed as (ld & -> & B).
      exists ld. split; [reflexivity|].
      rewrite length_map in B. unfold bshape in B. fold n in B.
      repeat match type of B with
             | context [?a =? ?b] => destruct (Nat.eqb_spec a b)
             end; try discriminate; injection B as B; lia. }
  destruct Hd0 as (ld & -> & Lld). cbn [nd_map map].
  rewrite broadcast_one_l, broadcast_repeat_l by (now rewrite !length_map).
  reflexivity.
Qed.

End DecBroadcast.

(** ** More on the observatory and on mixed shapes *)

Lemma outcome_bindM_ext {A B} (m : M A) (k1 k2 : A -> M B) :
  (forall a, outcome (k1 a) = outcome (k2 a)) ->
  outcome (bindM m k1) = outcome (bindM m k2).
Proof.
  intros H. destruct m as [t [a|e]]; [|reflexivity].
  rewrite !bindM_ok. exact (H a).
Qed.

Lemma outcome_bindM {A B} (m : M A) (k : A -> M B) :
  outcome (bindM m k) =
    match outcome m with
    | Ok a => outcome (k a)
    | Raise e => Raise e
    end.
Proof.
  destruct m as [t [a|e]]; [|reflexivity]. now rewrite bindM_ok.
Qed.

Section ObserverDefault.
Context {F : Type} {FL : Float64 F}.
Variable premat : F -> F -> option bool -> mat3 F.
Variable baryvel : F -> F -> vec3 F * vec3 F.
Variable getLST : F -> F -> F.

(** X16.  In degrees a float on one side and a vector on the other are
    accepted exactly when the vector has one element: the float is not
    stretched to the length of the vector. *)
Theorem precess_degrees_float_and_vector (x : F) (v : list F) (e1 e2 : F)
    (fk4 : option bool) :
  is_ok (precess premat (Scalar x) (Arr v) e1 e2 fk4 false) = (length v =? 1) /\
  is_ok (precess premat (Arr v) (Scalar x) e1 e2 fk4 false) = (length v =? 1).
Proof.
  unfold precess, rotated.
  destruct (premat e1 e2 fk4) as [[r0 r1] r2].
  destruct v as [|a [|b v]]; split; reflexivity.
Qed.

(** X17.  Campbell Hall written out: when 37.8732 and 122.2573 are truthy,
    the call with [nlat=37.8732, wlong=122.2573] returns (or raises) what
    the call without [nlat] and [wlong] does. *)
Theorem ugdoppler_explicit_default (ra dec julday : ndarray F) (light : bool)
    (o l : option (ndarray F)) :
  ftruthy (flit 37.8732) = true -> ftruthy (flit 122.2573) = true ->
  outcome (ugdoppler premat baryvel getLST ra dec julday
             (Some (flit 37.8732)) (Some (flit 122.2573)) light o l) =
  outcome (ugdoppler premat baryvel getLST ra dec julday None None light o l).
Proof.
  intros Hla Hlo. unfold ugdoppler. rewrite !outcome_bindM.
  assert (E : outcome (ugdoppler_locals premat baryvel getLST ra dec julday
                         (Some (flit 37.8732)) (Some (flit 122.2573)) light o l)
              = outcome (ugdoppler_locals premat baryvel getLST ra dec julday
                           None None light o l)).
  { unfold ugdoppler_locals.
    do 5 (apply outcome_bindM_ext; intro).
    apply outcome_bindM_ext; intros [helio bary].
    apply outcome_bindM_ext; intros vv.
    rewrite !observer_run. cbn [truthy]. rewrite Hla, Hlo. cbn [andb].
    rewrite !bindM_ok. reflexivity. }
  now rewrite E.
Qed.

End ObserverDefault.

(** ** The further properties on concrete calls *)

Section MoreExamples.
Local Open Scope R_scope.

(** X1 on two sources. *)
Lemma precess_output_shape_witness :
  exists lr ld,
    precess premat_identity (Arr [Fin 10; Fin 200]) (Arr [Fin 20; Fin (-30)])
      (flit 1950) (flit 2000) None false = Ok (Arr lr, Arr ld) /\
    length lr = 2%nat /\ length ld = length lr.
Proof.
  assert (H : exists r d,
             precess premat_identity (Arr [Fin 10; Fin 200])
               (Arr [Fin 20; Fin (-30)]) (flit 1950) (flit 2000) None false
             = Ok (r, d)) by (eexists _, _; reflexivity).
  destruct H as (r & d & H).
  destruct (precess_output_shape _ _ _ _ _ _ _ H)
    as (lr & ld & -> & -> & L1 & L2).
  exists lr, ld. split; [exact H|]. split; [exact L1|exact L2].
Defined.

(** X5 on two sources, at the second. *)
Lemma precess_degrees_batch_witness :
  exists lr ld,
    precess premat_identity (Arr [Fin 10; Fin 200]) (Arr [Fin 20; Fin (-30)])
      (flit 1950) (flit 2000) None false = Ok (Arr lr, Arr ld) /\
    precess premat_identity (Scalar (Fin 200)) (Scalar (Fin (-30)))
      (flit 1950) (flit 2000) None false
    = Ok (Arr [nth 1 lr (Fin 0)], Arr [nth 1 ld (Fin 0)]).
Proof.
  eexists _, _. split; [reflexivity|].
  exact (precess_degrees_batch premat_identity
           [Fin 10; Fin 200] [Fin 20; Fin (-30)] (flit 1950) (flit 2000) None
           (j := 1) (Fin 0) eq_refl eq_refl (le_n 2)).
Defined.

(** X6 on two sources. *)
Lemma precess_degrees_ranges_witness :
  exists lr ld,
    precess premat_identity (Arr (map Fin [10; 200])) (Arr (map Fin [20; -30]))
      (flit 1950) (flit 2000) None false = Ok (Arr lr, Arr ld) /\
    Forall (fun v => exists x, v = Fin x /\ 0 <= x < 360) lr /\
    Forall (fun v => v = NaN \/ exists x, v = Fin x /\ -90 <= x <= 90) ld.
Proof.
  exact (precess_degrees_ranges premat_identity (flit 1950) (flit 2000) None
           [10; 200] [20; -30] eq_refl eq_refl).
Defined.

(** X7 on one source. *)
Lemma precess_radian_ra_range_witness :
  exists r dec',
    precess premat_identity (Scalar (Fin 4)) (Scalar (Fin 1))
      (flit 1950) (flit 2000) None true = Ok (Arr [Fin r], Arr [dec']) /\
    - PI < r <= PI.
Proof.
  exact (precess_radian_ra_range premat_identity (flit 1950) (flit 2000) None
           4 1 eq_refl).
Defined.

(** X8 on two sources. *)
Lemma precess_degrees_dec_valid_witness :
  exists lr ld,
    precess premat_identity (Arr (map Fin [10; 200])) (Arr (map Fin [20; -30]))
      (flit 1950) (flit 2000) None false = Ok (Arr lr, Arr ld) /\
    Forall (fun v => exists x, v = Fin x /\ -90 <= x <= 90) ld.
Proof.
  apply (precess_degrees_dec_valid premat_identity (flit 1950) (flit 2000) None
           [10; 200] [20; -30] eq_refl); [lra|reflexivity].
Defined.

(** X9 on two sources. *)
Lemma precess_round_trip_witness :
  exists ra1 dec1,
    precess premat_identity (Arr (map Fin [10; 200])) (Arr (map Fin [20; -30]))
      (flit 1950) (flit 2000) None false = Ok (Arr ra1, Arr dec1) /\
    precess premat_identity (Arr ra1) (Arr dec1)
      (flit 2000) (flit 1950) None false
    = Ok (Arr (map Fin [10; 200]), Arr (map Fin [20; -30])).
Proof.
  apply (precess_round_trip premat_identity (flit 1950) (flit 2000) None
           (ra := [10; 200]) (dec := [20; -30]) eq_refl eq_refl);
    try lra; try reflexivity; repeat constructor; lra.
Defined.

(** X10 on two samples. *)
Lemma ugdoppler_trace_order_witness :
  exists t rows,
    ugdoppler premat_identity baryvel_rest getLST_zero
      (Arr [Fin 0; Fin 6]) (Arr [Fin 30; Fin 40])
      (Arr [Fin 2451545; Fin 2451546]) None None false None None
      = (t, Ok rows) /\
    t = [EvCall Cbaryvel; EvCall Cbaryvel; EvCall Cprecess;
         EvPrint "I am defaulting to Campbell Hall coordinates";
         EvCall CgetLST; EvBreakpoint].
Proof.
  eexists _, _. split; [reflexivity|].
  match goal with
  | |- ?t = _ =>
      exact (ugdoppler_trace_order premat_identity baryvel_rest getLST_zero
               (Arr [Fin 0; Fin 6]) (Arr [Fin 30; Fin 40])
               (Arr [Fin 2451545; Fin 2451546]) None None false None None
               (t := t) eq_refl)
  end.
Defined.

(** X11 on two right ascensions and one Julian day. *)
Lemma ugdoppler_short_julday_witness :
  ugdoppler premat_identity baryvel_rest getLST_zero
    (Arr [Fin 0; Fin 6]) (Arr [Fin 30; Fin 40]) (Arr [Fin 2451545])
    None None false None None
  = ([EvCall Cbaryvel], Raise IndexError).
Proof.
  apply (ugdoppler_short_julday premat_identity baryvel_rest getLST_zero
           [Fin 0; Fin 6] [Fin 30; Fin 40] [Fin 2451545]).
  - left. reflexivity.
  - apply le_n.
Defined.

(** X13 on one sample. *)
Lemma ugdoppler_light_rescales_witness :
  exists t rows,
    ugdoppler premat_identity baryvel_rest getLST_zero
      (Arr [Fin 6]) (Arr [Fin 30]) (Arr [Fin 2451545])
      None None false None None = (t, Ok rows) /\
    ugdoppler premat_identity baryvel_rest getLST_zero
      (Arr [Fin 6]) (Arr [Fin 30]) (Arr [Fin 2451545])
      None None true None None
    = (t, Ok (map (map (fun v => fdiv v (flit 299792.458))) rows)).
Proof.
  eexists _, _. split; [reflexivity|].
  exact (ugdoppler_light_rescales premat_identity baryvel_rest getLST_zero
           (Arr [Fin 6]) (Arr [Fin 30]) (Arr [Fin 2451545])
           None None None None eq_refl).
Defined.

(** X14 on two samples, at the second. *)
Lemma ugdoppler_batch_is_per_sample_witness :
  exists t rows t1,
    ugdoppler premat_identity baryvel_rest getLST_zero
      (Arr [Fin 0; Fin 6]) (Arr [Fin 30; Fin 40])
      (Arr [Fin 2451545; Fin 2451546]) None None false None None
      = (t, Ok rows) /\
    ugdoppler premat_identity baryvel_rest getLST_zero
      (Arr [Fin 6]) (Arr [Fin 40]) (Arr [Fin 2451546])
      None None false None None
    = (t1, Ok (map (fun row => [nth 1 row (Fin 0)]) rows)).
Proof.
  assert (H : exists t rows,
             ugdoppler premat_identity baryvel_rest getLST_zero
               (Arr [Fin 0; Fin 6]) (Arr [Fin 30; Fin 40])
               (Arr [Fin 2451545; Fin 2451546]) None None false None None
             = (t, Ok rows)) by (eexists _, _; reflexivity).
  destruct H as (t & rows & H).
  destruct (ugdoppler_batch_is_per_sample premat_identity baryvel_rest
              getLST_zero [Fin 0; Fin 6] [Fin 30; Fin 40]
              [Fin 2451545; Fin 2451546] None None false None None
              (j := 1) (Fin 0) eq_refl eq_refl H (le_n 2)) as (t1 & H1).
  exists t, rows, t1. split; [exact H|exact H1].
Defined.

(** X17 on one sample. *)
Lemma ugdoppler_explicit_default_witness :
  outcome (ugdoppler premat_identity baryvel_rest getLST_zero
             (Arr [Fin 6]) (Arr [Fin 30]) (Arr [Fin 2451545])
             (Some (flit 37.8732)) (Some (flit 122.2573)) false None None) =
  outcome (ugdoppler premat_identity baryvel_rest getLST_zero
             (Arr [Fin 6]) (Arr [Fin 30]) (Arr [Fin 2451545])
             None None false None None).
Proof.
  apply ugdoppler_explicit_default.
  - apply np_truthy_nonzero. unfold Q2R; cbn [Qnum Qden]. lra.
  - apply np_truthy_nonzero. unfold Q2R; cbn [Qnum Qden]. lra.
Defined.

End MoreExamples.
